(** * RSBP.py: the skybox preview widget and its texture cache

    A shallow embedding of [SkyboxPreview] and of the part of
    [SkyboxGenerator] that switches the render mode.

    Conventions of the embedding
    - Python [float] values are idealised as real numbers ([R]): rounding,
      overflow and signed zeros are outside the model, which is exact on
      the cube's own vertices and grid; [Float64] has the spherical
      mapping on doubles, for where the difference shows.  Python [int] values
      (camera angles, pointer coordinates) are [Z]; OpenGL texture names
      ([GLuint]) are [N], with 0 the "no texture" name.
    - A Python exception is a value of [exn]; code that can raise returns in
      [exn + A], and code that also talks to OpenGL returns in [GL A], which
      records the commands issued up to the return or up to the exception.
    - A [dict] whose iteration order is observed (the local [faces] table)
      is an association list in insertion order; the texture cache, which is
      only looked up, updated and cleared, is a [gmap]. *)

From Stdlib Require Import Reals Lra Lia ZArith List.
From stdpp Require Import gmap strings.
From Corelib Require PrimFloat.
Import ListNotations.

(** ** Python primitives used by the source *)

Module Py.

Inductive exn : Set :=
| ZeroDivisionError
| ValueError
| IndexError
| KeyError.

Definition ret {A} (a : A) : exn + A := inr a.
Definition raise {A} (e : exn) : exn + A := inl e.
Definition bind {A B} (m : exn + A) (k : A -> exn + B) : exn + B :=
  match m with
  | inl e => inl e
  | inr a => k a
  end.

(** [a / b] on floats: true division, raising on a zero divisor. *)
Definition truediv (a b : R) : exn + R :=
  if Req_dec_T b 0 then raise ZeroDivisionError else ret (a / b)%R.

(** [math.sqrt]: a domain error below zero. *)
Definition math_sqrt (x : R) : exn + R :=
  if Rlt_dec x 0 then raise ValueError else ret (sqrt x).

(** [math.asin]: a domain error outside [-1, 1]. *)
Definition math_asin (x : R) : exn + R :=
  if Rlt_dec x (-1) then raise ValueError
  else if Rlt_dec 1 x then raise ValueError
  else ret (asin x).

(** [math.atan2 y x]: the angle of the point (x, y), in (-pi, pi];
    total, with [atan2 0 0 = 0]. *)
Definition math_atan2 (y x : R) : R :=
  if Rlt_dec 0 x then atan (y / x)
  else if Rlt_dec x 0 then
    (if Rle_dec 0 y then atan (y / x) + PI else atan (y / x) - PI)%R
  else if Rlt_dec 0 y then (PI / 2)%R
  else if Rlt_dec y 0 then (- (PI / 2))%R
  else 0%R.

Definition math_pi : R := PI.

(** [l[i]] for a list and a non-negative index. *)
Definition getitem {A} (l : list A) (i : nat) : exn + A :=
  match nth_error l i with
  | Some a => ret a
  | None => raise IndexError
  end.

End Py.

Import Py.

Notation "'do' x <- m ; k" := (bind m (fun x => k))
  (at level 10, x name, m at level 100, k at level 200, only parsing).

(** ** Points and the spherical UV mapping *)

(** A 3-element list [[x, y, z]] of floats. *)
Definition vec3 : Type := R * R * R.

(** [lerp3D]: [[a[i] + (b[i] - a[i]) * t for i in range(3)]]. *)
Definition lerp3D (a b : vec3) (t : R) : vec3 :=
  let '(a0, a1, a2) := a in
  let '(b0, b1, b2) := b in
  (a0 + (b0 - a0) * t, a1 + (b1 - a1) * t, a2 + (b2 - a2) * t)%R.

(** [cubeToSphereUV]: normalise, then the equirectangular projection.
    The two divisions by multiples of [math.pi] cannot raise and are
    written with the field division. *)
Definition cubeToSphereUV (pos : vec3) : exn + (R * R) :=
  let '(x, y, z) := pos in
  do length <- math_sqrt (x * x + y * y + z * z) ;
  do nx <- truediv x length ;
  do ny <- truediv y length ;
  do nz <- truediv z length ;
  let u := (0.5 + math_atan2 nz nx / (2 * math_pi))%R in
  do a <- math_asin ny ;
  let v := (0.5 - a / math_pi)%R in
  ret (u, v).

(** [k * p], componentwise. *)
Definition scale (k : R) (p : vec3) : vec3 :=
  let '(x, y, z) := p in (k * x, k * y, k * z)%R.

Definition origin : vec3 := (0, 0, 0)%R.

(** The squared Euclidean norm, the argument of [math.sqrt] in
    [cubeToSphereUV]. *)
Definition norm2 (p : vec3) : R :=
  let '(x, y, z) := p in (x * x + y * y + z * z)%R.

(** The closed form of [cubeToSphereUV] away from the origin (see
    [cubeToSphereUV_positive_norm]). *)
Definition sphere_uv (p : vec3) : R * R :=
  let '(x, y, z) := p in
  let L := sqrt (norm2 p) in
  (0.5 + math_atan2 (z / L) (x / L) / (2 * math_pi),
   0.5 - asin (y / L) / math_pi)%R.

(** ** OpenGL commands and the [GL] monad *)

Inductive gl_enum : Set :=
| GL_TEXTURE_2D
| GL_CW
| GL_CCW
| GL_QUADS
| GL_TRIANGLE_STRIP
| GL_TEXTURE_MIN_FILTER
| GL_TEXTURE_MAG_FILTER
| GL_LINEAR
| GL_RGBA
| GL_UNSIGNED_BYTE.

(** The calls the modelled methods make, with their arguments;
    [glGenTextures] carries the name the driver returned. *)
Inductive gl_cmd : Type :=
| glEnable (cap : gl_enum)
| glFrontFace (mode : gl_enum)
| glBindTexture (target : gl_enum) (texture : N)
| glBegin (mode : gl_enum)
| glEnd
| glTexCoord2f (s t : R)
| glVertex3f (x y z : R)
| glDeleteTextures (names : list N)
| glGenTextures (n : N) (returned : N)
| glTexParameteri (target pname param : gl_enum)
| glTexImage2D (target : gl_enum) (level : Z) (internalformat : gl_enum)
    (width height : N) (border : Z) (format type : gl_enum)
    (pixels : list Byte.byte).

(** A computation that issues OpenGL commands and either returns or raises;
    in both cases [out] is what was issued, oldest first. *)
Inductive GL (A : Type) : Type :=
| Done (out : list gl_cmd) (a : A)
| Raised (out : list gl_cmd) (e : exn).
Arguments Done {A} out a.
Arguments Raised {A} out e.

Definition gl_ret {A} (a : A) : GL A := Done [] a.

Definition gl_bind {A B} (m : GL A) (k : A -> GL B) : GL B :=
  match m with
  | Raised out e => Raised out e
  | Done out a =>
      match k a with
      | Done out' b => Done (out ++ out') b
      | Raised out' e => Raised (out ++ out') e
      end
  end.

Definition emit (c : gl_cmd) : GL unit := Done [c] tt.

Definition lift {A} (m : exn + A) : GL A :=
  match m with
  | inl e => Raised [] e
  | inr a => Done [] a
  end.

Definition issued {A} (m : GL A) : list gl_cmd :=
  match m with
  | Done out _ => out
  | Raised out _ => out
  end.

Notation "'GLdo' x <- m ; k" := (gl_bind m (fun x => k))
  (at level 10, x name, m at level 100, k at level 200, only parsing).
Notation "'GLrun' m ; k" := (gl_bind m (fun _ => k))
  (at level 10, m at level 100, k at level 200, only parsing).

(** [for x in xs: body(x)]. *)
Fixpoint for_each {A} (xs : list A) (body : A -> GL unit) : GL unit :=
  match xs with
  | [] => gl_ret tt
  | x :: xs' => GLrun body x ; for_each xs' body
  end.

(** [range(n)]. *)
Definition range (n : nat) : list nat := seq 0 n.

Definition vertex3f (p : vec3) : GL unit :=
  let '(x, y, z) := p in emit (glVertex3f x y z).

(** ** Module constants and the tables of [drawSkybox] *)

Definition FACE_NAMES : list string := ["ft"; "bk"; "lf"; "rt"; "up"; "dn"].

Definition size : R := 1.

Definition vertices : list vec3 :=
  [ (- size, - size, size);
    (size, - size, size);
    (size, size, size);
    (- size, size, size);
    (- size, - size, - size);
    (size, - size, - size);
    (size, size, - size);
    (- size, size, - size) ]%R.

Definition quad_uv : list (Z * Z) := [(0, 0); (1, 0); (1, 1); (0, 1)]%Z.

(** The dict literal [faces], as its items in insertion order. *)
Definition faces : list (string * (list nat * list (Z * Z))) :=
  [ ("ft", ([0; 1; 2; 3], quad_uv));
    ("bk", ([5; 4; 7; 6], quad_uv));
    ("rt", ([4; 0; 3; 7], quad_uv));
    ("lf", ([1; 5; 6; 2], quad_uv));
    ("up", ([3; 2; 6; 7], quad_uv));
    ("dn", ([4; 5; 1; 0], quad_uv)) ].

(** ** [SkyboxPreview] *)

(** [QPoint]: integer widget coordinates. *)
Record QPoint : Set := mkQPoint { qx : Z; qy : Z }.

Definition isNull (p : QPoint) : bool := (qx p =? 0)%Z && (qy p =? 0)%Z.

(** Truth value of a [QPoint]: PyQt5 binds [QPoint.__bool__] to
    [not isNull()], so the point (0, 0) is false. *)
Definition QPoint_bool (p : QPoint) : bool := negb (isNull p).

Record SkyboxPreview : Type := mkPreview {
  textures : gmap string N;
  rot_x : Z;
  rot_y : Z;
  last_pos : option QPoint;
  use_spherical_uv : bool;
  subdivide : nat  (* an [int] only used as [range(sub)] and as a divisor *)
}.

(** [SkyboxPreview.__init__]. *)
Definition init_preview : SkyboxPreview :=
  {| textures := ∅;
     rot_x := 20;
     rot_y := -30;
     last_pos := None;
     use_spherical_uv := false;
     subdivide := 20 |}.

Definition set_textures (t : gmap string N) (self : SkyboxPreview) :=
  {| textures := t; rot_x := rot_x self; rot_y := rot_y self;
     last_pos := last_pos self; use_spherical_uv := use_spherical_uv self;
     subdivide := subdivide self |}.

Definition set_use_spherical_uv (b : bool) (self : SkyboxPreview) :=
  {| textures := textures self; rot_x := rot_x self; rot_y := rot_y self;
     last_pos := last_pos self; use_spherical_uv := b;
     subdivide := subdivide self |}.

Definition set_last_pos (p : option QPoint) (self : SkyboxPreview) :=
  {| textures := textures self; rot_x := rot_x self; rot_y := rot_y self;
     last_pos := p; use_spherical_uv := use_spherical_uv self;
     subdivide := subdivide self |}.

(** [drawFaceFlat]. *)
Definition drawFaceFlat (vertices : list vec3) (verts_idx : list nat) : GL unit :=
  let texcoords := [(0, 0); (1, 0); (1, 1); (0, 1)]%Z in
  GLrun emit (glBegin GL_QUADS) ;
  GLrun for_each (combine verts_idx texcoords) (fun '(vi, (u, v)) =>
    GLrun emit (glTexCoord2f (IZR u) (IZR v)) ;
    GLdo p <- lift (getitem vertices vi) ;
    vertex3f p) ;
  emit glEnd.

(** One column of a strip in [drawFaceSpherical]: the body of the inner
    loop. *)
Definition strip_column (sub : nat) (v0 v1 v2 v3 : vec3) (t0 t1 : R) (j : nat)
  : GL unit :=
  GLdo s <- lift (truediv (INR j) (INR sub)) ;
  let pA := lerp3D (lerp3D v0 v1 s) (lerp3D v3 v2 s) t0 in
  let pB := lerp3D (lerp3D v0 v1 s) (lerp3D v3 v2 s) t1 in
  GLdo uvA <- lift (cubeToSphereUV pA) ;
  GLdo uvB <- lift (cubeToSphereUV pB) ;
  GLrun emit (glTexCoord2f (fst uvA) (snd uvA)) ;
  GLrun vertex3f pA ;
  GLrun emit (glTexCoord2f (fst uvB) (snd uvB)) ;
  vertex3f pB.

(** One strip: the body of the outer loop. *)
Definition strip (sub : nat) (v0 v1 v2 v3 : vec3) (i : nat) : GL unit :=
  GLdo t0 <- lift (truediv (INR i) (INR sub)) ;
  GLdo t1 <- lift (truediv (INR (i + 1)) (INR sub)) ;
  GLrun emit (glBegin GL_TRIANGLE_STRIP) ;
  GLrun for_each (range (sub + 1)) (strip_column sub v0 v1 v2 v3 t0 t1) ;
  emit glEnd.

(** [drawFaceSpherical]. *)
Definition drawFaceSpherical (self : SkyboxPreview)
    (vertices : list vec3) (verts_idx : list nat) : GL unit :=
  let sub := subdivide self in
  GLdo i0 <- lift (getitem verts_idx 0) ;
  GLdo v0 <- lift (getitem vertices i0) ;
  GLdo i1 <- lift (getitem verts_idx 1) ;
  GLdo v1 <- lift (getitem vertices i1) ;
  GLdo i2 <- lift (getitem verts_idx 2) ;
  GLdo v2 <- lift (getitem vertices i2) ;
  GLdo i3 <- lift (getitem verts_idx 3) ;
  GLdo v3 <- lift (getitem vertices i3) ;
  for_each (range sub) (strip sub v0 v1 v2 v3).

(** The name [drawSkybox] binds for a face: its texture when the cache
    holds a non-zero one, else 0. *)
Definition bound_name (tex_id : option N) : N :=
  match tex_id with
  | Some t => if (t =? 0)%N then 0%N else t
  | None => 0%N
  end.

(** The body of the loop over [faces.items()]. *)
Definition draw_face (self : SkyboxPreview)
    (item : string * (list nat * list (Z * Z))) : GL unit :=
  let '(face_name, (verts_idx, _)) := item in
  let tex_id := textures self !! face_name in
  GLrun emit (glBindTexture GL_TEXTURE_2D (bound_name tex_id)) ;
  if use_spherical_uv self
  then drawFaceSpherical self vertices verts_idx
  else drawFaceFlat vertices verts_idx.

(** [drawSkybox]. *)
Definition drawSkybox (self : SkyboxPreview) : GL unit :=
  GLrun emit (glEnable GL_TEXTURE_2D) ;
  GLrun emit (glFrontFace GL_CW) ;
  GLrun for_each faces (draw_face self) ;
  emit (glFrontFace GL_CCW).

(** *** The texture cache *)

(** A decoded bitmap: its [size] and its rows of RGBA pixels, top row
    first.  (Images are taken as already in mode RGBA, on which
    [convert('RGBA')] is a copy.) *)
Record Image : Type := mkImage {
  img_size : N * N;
  img_rows : list (list (Byte.byte * Byte.byte * Byte.byte * Byte.byte))
}.

Definition convert_RGBA (img : Image) : Image := img.

(** [img.tobytes("raw", "RGBA", 0, -1)]: the rows bottom-up. *)
Definition tobytes_raw_RGBA_flipped (img : Image) : list Byte.byte :=
  concat (map (flat_map (fun '(r, g, b, a) => [r; g; b; a])) (rev (img_rows img))).

(** The texture names in use in the OpenGL context. *)
Abbreviation gl_names := (gset N).

(** The name [glGenTextures(1)] returns: non-zero and not in use.  Which
    unused name a driver picks is not specified; only [gen_name_fresh] and
    [gen_name_nonzero] are used below. *)
Definition gen_name (live : gl_names) : N := fresh ({[0%N]} ∪ live).

(** [loadTexture], on the widget and the context's texture names; the
    third component is the list of commands issued.  ([self.update()]
    only schedules a repaint.) *)
Definition loadTexture (face_name : string) (pil_image : Image)
    (self : SkyboxPreview) (live : gl_names)
  : SkyboxPreview * gl_names * list gl_cmd :=
  let img := convert_RGBA pil_image in
  let img_data := tobytes_raw_RGBA_flipped img in
  let '(w, h) := img_size img in
  let '(live1, out1) :=
    match textures self !! face_name with
    | Some old => (live ∖ {[old]}, [glDeleteTextures [old]])
    | None => (live, [])
    end in
  let tex_id := gen_name live1 in
  let live2 := {[tex_id]} ∪ live1 in
  (set_textures (<[face_name := tex_id]> (textures self)) self,
   live2,
   out1 ++
   [ glGenTextures 1 tex_id;
     glBindTexture GL_TEXTURE_2D tex_id;
     glTexParameteri GL_TEXTURE_2D GL_TEXTURE_MIN_FILTER GL_LINEAR;
     glTexParameteri GL_TEXTURE_2D GL_TEXTURE_MAG_FILTER GL_LINEAR;
     glTexImage2D GL_TEXTURE_2D 0 GL_RGBA w h 0 GL_RGBA GL_UNSIGNED_BYTE img_data ]).

(** [self.textures.get(face)]. *)
Definition get (self : SkyboxPreview) (face : string) : option N :=
  textures self !! face.

(** *** The camera *)

(** [mousePressEvent], [mouseMoveEvent] and [mouseReleaseEvent], each on
    the position the event carries.  ([self.update()] only schedules a
    repaint.) *)
Definition mousePressEvent (pos : QPoint) (self : SkyboxPreview) : SkyboxPreview :=
  set_last_pos (Some pos) self.

Definition mouseMoveEvent (pos : QPoint) (self : SkyboxPreview) : SkyboxPreview :=
  match last_pos self with
  | Some last =>
      if QPoint_bool last then
        let dx := (qx pos - qx last)%Z in
        let dy := (qy pos - qy last)%Z in
        let rot_x1 := (rot_x self + dy)%Z in
        let rot_y1 := (rot_y self + dx)%Z in
        let rot_x2 := Z.max (Z.min rot_x1 90) (-90) in
        {| textures := textures self; rot_x := rot_x2; rot_y := rot_y1;
           last_pos := Some pos; use_spherical_uv := use_spherical_uv self;
           subdivide := subdivide self |}
      else self
  | None => self
  end.

Definition mouseReleaseEvent (self : SkyboxPreview) : SkyboxPreview :=
  set_last_pos None self.

(** A press followed by a run of moves. *)
Definition drag (press : QPoint) (moves : list QPoint) (self : SkyboxPreview)
  : SkyboxPreview :=
  fold_left (fun s p => mouseMoveEvent p s) moves (mousePressEvent press self).

(** ** [SkyboxGenerator]: the mode switch *)

(** The widgets of one face row, each as its enabled flag. *)
Record FaceInputs : Set := mkFaceInputs {
  path_edit : bool;
  browse_btn : bool;
  load_tex_btn : bool;
  rotate_btn : bool;
  flip_btn : bool
}.

(** The part of the window that [updateMode] reads or writes: the checked
    state of the radio button, the enabled flags of the inputs, and the
    preview widget. *)
Record SkyboxGenerator : Type := mkGenerator {
  radio_six : bool;
  face_inputs : gmap string FaceInputs;
  stretch_path_edit : bool;
  btn_browse_stretch : bool;
  stretch_rotate_btn : bool;
  stretch_flip_btn : bool;
  preview : SkyboxPreview
}.

(** The loop of [updateMode] over [FACE_NAMES]; [self.face_inputs[face]]
    raises on a missing key. *)
Fixpoint set_faces_enabled (names : list string) (six_mode : bool)
    (inputs : gmap string FaceInputs) : exn + gmap string FaceInputs :=
  match names with
  | [] => ret inputs
  | face :: names' =>
      match inputs !! face with
      | Some _ =>
          set_faces_enabled names' six_mode
            (<[face := mkFaceInputs six_mode six_mode six_mode six_mode six_mode]>
               inputs)
      | None => raise KeyError
      end
  end.

(** [updateMode]. *)
Definition updateMode (self : SkyboxGenerator) : exn + SkyboxGenerator :=
  let six_mode := radio_six self in
  do inputs <- set_faces_enabled FACE_NAMES six_mode (face_inputs self) ;
  ret {| radio_six := radio_six self;
         face_inputs := inputs;
         stretch_path_edit := negb six_mode;
         btn_browse_stretch := negb six_mode;
         stretch_rotate_btn := negb six_mode;
         stretch_flip_btn := negb six_mode;
         preview :=
           set_use_spherical_uv (negb six_mode)
             (set_textures ∅ (preview self)) |}.

(** A click on one of the two radio buttons of the exclusive group:
    [six] tells which one; the group then calls [updateMode]. *)
Definition click_radio (six : bool) (self : SkyboxGenerator)
  : exn + SkyboxGenerator :=
  updateMode
    {| radio_six := six;
       face_inputs := face_inputs self;
       stretch_path_edit := stretch_path_edit self;
       btn_browse_stretch := btn_browse_stretch self;
       stretch_rotate_btn := stretch_rotate_btn self;
       stretch_flip_btn := stretch_flip_btn self;
       preview := preview self |}.

(** The window as [initUI] builds it, before its closing call of
    [updateMode]: every widget enabled, the six-image button checked. *)
Definition built_window : SkyboxGenerator :=
  {| radio_six := true;
     face_inputs :=
       list_to_map (map (fun f => (f, mkFaceInputs true true true true true)) FACE_NAMES);
     stretch_path_edit := true;
     btn_browse_stretch := true;
     stretch_rotate_btn := true;
     stretch_flip_btn := true;
     preview := init_preview |}.

(** Every face row exists: what [initUI] establishes and nothing changes. *)
Definition rows_built (self : SkyboxGenerator) : Prop :=
  Forall (fun face => is_Some (face_inputs self !! face)) FACE_NAMES.

(** ** Reading a command trace *)

(** Texture coordinates and vertices: what goes between [glBegin] and
    [glEnd]. *)
Definition is_vertex_data (c : gl_cmd) : bool :=
  match c with
  | glTexCoord2f _ _ | glVertex3f _ _ _ => true
  | _ => false
  end.

(** The triangle strips of a trace: for each
    [glBegin(GL_TRIANGLE_STRIP)] ... [glEnd], the commands in between.
    [cur] is the strip being read, newest command first. *)
Fixpoint split_strips (cur : option (list gl_cmd)) (out : list gl_cmd)
  : list (list gl_cmd) :=
  match out with
  | [] => []
  | glBegin GL_TRIANGLE_STRIP :: out' => split_strips (Some []) out'
  | glEnd :: out' =>
      match cur with
      | Some body => rev body :: split_strips None out'
      | None => split_strips None out'
      end
  | c :: out' =>
      match cur with
      | Some body => split_strips (Some (c :: body)) out'
      | None => split_strips None out'
      end
  end.

Definition strips_of (out : list gl_cmd) : list (list gl_cmd) :=
  split_strips None out.

Definition is_vertex (c : gl_cmd) : bool :=
  match c with
  | glVertex3f _ _ _ => true
  | _ => false
  end.

Definition vertex_count (out : list gl_cmd) : nat :=
  length (List.filter is_vertex out).

(** The arguments of the [glTexCoord2f] calls, in order. *)
Fixpoint texcoords_of (out : list gl_cmd) : list (R * R) :=
  match out with
  | [] => []
  | glTexCoord2f s t :: out' => (s, t) :: texcoords_of out'
  | _ :: out' => texcoords_of out'
  end.

(** The arguments of the [glVertex3f] calls, in order. *)
Fixpoint vertices_of (out : list gl_cmd) : list vec3 :=
  match out with
  | [] => []
  | glVertex3f x y z :: out' => (x, y, z) :: vertices_of out'
  | _ :: out' => vertices_of out'
  end.

(** The texture names bound, in order. *)
Fixpoint bind_sequence (out : list gl_cmd) : list N :=
  match out with
  | [] => []
  | glBindTexture _ t :: out' => t :: bind_sequence out'
  | _ :: out' => bind_sequence out'
  end.

(** ** The grid of the spherical path, in closed form *)

(** The point [drawFaceSpherical] computes at parameters [s], [t]. *)
Definition grid_point (v0 v1 v2 v3 : vec3) (s t : R) : vec3 :=
  lerp3D (lerp3D v0 v1 s) (lerp3D v3 v2 s) t.

(** One coordinate is 1 or -1. *)
Definition on_unit_cube (p : vec3) : Prop :=
  let '(x, y, z) := p in
  (x = 1 \/ x = -1 \/ y = 1 \/ y = -1 \/ z = 1 \/ z = -1)%R.

(** The four corners [vertices[verts_idx[0..3]]], when they exist. *)
Definition quad_of (vertices : list vec3) (verts_idx : list nat)
  : option (vec3 * vec3 * vec3 * vec3) :=
  match verts_idx with
  | i0 :: i1 :: i2 :: i3 :: _ =>
      match nth_error vertices i0, nth_error vertices i1,
            nth_error vertices i2, nth_error vertices i3 with
      | Some v0, Some v1, Some v2, Some v3 => Some (v0, v1, v2, v3)
      | _, _, _, _ => None
      end
  | _ => None
  end.

Definition vertex_cmd (p : vec3) : gl_cmd :=
  let '(x, y, z) := p in glVertex3f x y z.

Definition texcoord_cmd (uv : R * R) : gl_cmd :=
  glTexCoord2f (fst uv) (snd uv).

(** What one column of a strip issues when nothing raises. *)
Definition column_out (v0 v1 v2 v3 : vec3) (t0 t1 s : R) : list gl_cmd :=
  let pA := grid_point v0 v1 v2 v3 s t0 in
  let pB := grid_point v0 v1 v2 v3 s t1 in
  [ texcoord_cmd (sphere_uv pA); vertex_cmd pA;
    texcoord_cmd (sphere_uv pB); vertex_cmd pB ].

(** The columns of strip [i], one list per column. *)
Definition strip_columns (sub : nat) (v0 v1 v2 v3 : vec3) (i : nat)
  : list (list gl_cmd) :=
  map (fun j => column_out v0 v1 v2 v3
                  (INR i / INR sub) (INR (i + 1) / INR sub) (INR j / INR sub))
      (range (sub + 1)).

Definition strip_out (sub : nat) (v0 v1 v2 v3 : vec3) (i : nat) : list gl_cmd :=
  glBegin GL_TRIANGLE_STRIP :: concat (strip_columns sub v0 v1 v2 v3 i) ++ [glEnd].

Definition spherical_out (sub : nat) (v0 v1 v2 v3 : vec3) : list gl_cmd :=
  flat_map (strip_out sub v0 v1 v2 v3) (range sub).

(** What the flat path issues for a quad. *)
Definition flat_out (v0 v1 v2 v3 : vec3) : list gl_cmd :=
  [ glBegin GL_QUADS;
    glTexCoord2f 0 0; vertex_cmd v0;
    glTexCoord2f 1 0; vertex_cmd v1;
    glTexCoord2f 1 1; vertex_cmd v2;
    glTexCoord2f 0 1; vertex_cmd v3;
    glEnd ].

(** What [drawSkybox] issues for one item of [faces]. *)
Definition face_out (self : SkyboxPreview)
    (item : string * (list nat * list (Z * Z))) : list gl_cmd :=
  let '(face_name, (verts_idx, _)) := item in
  glBindTexture GL_TEXTURE_2D (bound_name (textures self !! face_name)) ::
  match quad_of vertices verts_idx with
  | Some (v0, v1, v2, v3) =>
      if use_spherical_uv self
      then spherical_out (subdivide self) v0 v1 v2 v3
      else flat_out v0 v1 v2 v3
  | None => []
  end.

(** Every grid point of the quad has a coordinate equal to 1 or -1. *)
Definition quad_on_cube (v0 v1 v2 v3 : vec3) : Prop :=
  forall s t : R, on_unit_cube (grid_point v0 v1 v2 v3 s t).

(** The shape of one spherical face draw: [sub] strips, each of [sub + 1] columns of two
    vertices. *)
Definition strips_shape (sub : nat) (out : list gl_cmd) : Prop :=
  length (strips_of out) = sub /\
  Forall (fun body =>
            exists columns,
              body = concat columns /\
              length columns = (sub + 1)%nat /\
              Forall (fun c => vertex_count c = 2%nat) columns /\
              vertex_count body = (2 * (sub + 1))%nat)
         (strips_of out).

(** What [drawSkybox] issues when no face raises. *)
Definition skybox_out (self : SkyboxPreview) : list gl_cmd :=
  [glEnable GL_TEXTURE_2D; glFrontFace GL_CW] ++
  flat_map (face_out self) faces ++ [glFrontFace GL_CCW].

(** A cache with a different texture on each face, named 1 to 6 in the
    order of [FACE_NAMES]. *)
Definition numbered_textures : gmap string N :=
  list_to_map [("ft", 1%N); ("bk", 2%N); ("lf", 3%N);
               ("rt", 4%N); ("up", 5%N); ("dn", 6%N)].

Definition numbered_preview : SkyboxPreview :=
  set_textures numbered_textures init_preview.

(** The widget after loading [img] on every face, in the order of
    [FACE_NAMES], from a fresh widget and a context without textures. *)
Definition load_all (img : Image) : SkyboxPreview * gl_names :=
  fold_left (fun st face =>
               let r := loadTexture face img st.1 st.2 in (r.1.1, r.1.2))
            FACE_NAMES (init_preview, ∅).

(** A widget with tessellation factor 2. *)
Definition sub2_preview : SkyboxPreview :=
  {| textures := ∅; rot_x := 20; rot_y := -30; last_pos := None;
     use_spherical_uv := true; subdivide := 2 |}.

(** The names in use once the old texture of [face], if any, is deleted,
    and the command that deletes it. *)
Definition after_delete (self : SkyboxPreview) (face : string) (live : gl_names)
  : gl_names :=
  match get self face with
  | Some old => live ∖ {[old]}
  | None => live
  end.

Definition delete_cmds (self : SkyboxPreview) (face : string) : list gl_cmd :=
  match get self face with
  | Some old => [glDeleteTextures [old]]
  | None => []
  end.

(** A bitmap of zero width and height. *)
Definition empty_image : Image := {| img_size := (0%N, 0%N); img_rows := [] |}.

(** The window with the numbered textures loaded in its preview. *)
Definition loaded_window : SkyboxGenerator :=
  {| radio_six := true;
     face_inputs := face_inputs built_window;
     stretch_path_edit := false;
     btn_browse_stretch := false;
     stretch_rotate_btn := false;
     stretch_flip_btn := false;
     preview := numbered_preview |}.

(** The x-deltas of a drag, each measured from the previous position. *)
Fixpoint sum_dx (prev : QPoint) (moves : list QPoint) : Z :=
  match moves with
  | [] => 0
  | p :: moves' => (qx p - qx prev) + sum_dx p moves'
  end.

(** ** The frame: [initializeGL], [resizeGL], [paintGL] *)

(** The OpenGL constants of the frame set-up. *)
Inductive gl_frame_enum : Set :=
| GL_CULL_FACE
| GL_DEPTH_TEST
| GL_LEQUAL
| GL_PROJECTION
| GL_MODELVIEW
| GL_COLOR_BUFFER_BIT
| GL_DEPTH_BUFFER_BIT.

(** The calls of a frame: those of the draw paths ([gl]) and the calls on
    the matrix, depth and culling state.  [glEnableCap] and [glDisableCap]
    are [glEnable] and [glDisable] on a constant of the frame set-up;
    [glClear] takes the bits or-ed into its mask. *)
Inductive frame_cmd : Type :=
| gl (c : gl_cmd)
| glClearColor (r g b a : Z)
| glDepthFunc (func : gl_frame_enum)
| glEnableCap (cap : gl_frame_enum)
| glDisableCap (cap : gl_frame_enum)
| glClear (mask : list gl_frame_enum)
| glLoadIdentity
| glRotatef (angle x y z : Z)
| glDepthMask (flag : bool)
| glViewport (x y width height : Z)
| glMatrixMode (mode : gl_frame_enum)
| gluPerspective (fovy aspect zNear zFar : R).

(** [initializeGL]. *)
Definition initializeGL : list frame_cmd :=
  [ gl (glEnable GL_TEXTURE_2D);
    glClearColor 0 0 0 1;
    glEnableCap GL_DEPTH_TEST;
    glDepthFunc GL_LEQUAL;
    glEnableCap GL_CULL_FACE ].

(** [resizeGL]: the commands issued, and how the call ended.  ([w] and
    [h] are C [int]s from Qt, for which [w / h] cannot overflow.) *)
Definition resizeGL (w h : Z) : list frame_cmd * (exn + unit) :=
  let h := if (h =? 0)%Z then 1%Z else h in
  let pre := [glViewport 0 0 w h; glMatrixMode GL_PROJECTION; glLoadIdentity] in
  match truediv (IZR w) (IZR h) with
  | inl e => (pre, inl e)
  | inr aspect =>
      (pre ++ [gluPerspective 60 aspect 0.1 100.0; glMatrixMode GL_MODELVIEW],
       inr tt)
  end.

(** [paintGL]: the commands issued, and how the call ended. *)
Definition paintGL (self : SkyboxPreview) : list frame_cmd * (exn + unit) :=
  let pre :=
    [ glClear [GL_COLOR_BUFFER_BIT; GL_DEPTH_BUFFER_BIT];
      glLoadIdentity;
      glRotatef (rot_x self) 1 0 0;
      glRotatef (rot_y self) 0 1 0;
      glDepthMask false;
      glDisableCap GL_CULL_FACE ] in
  match drawSkybox self with
  | Raised out e => (pre ++ map gl out, inl e)
  | Done out _ =>
      (pre ++ map gl out ++ [glEnableCap GL_CULL_FACE; glDepthMask true], inr tt)
  end.

(** The rotations of a frame, in order: angle and axis. *)
Fixpoint rotations_of (out : list frame_cmd) : list (Z * (Z * Z * Z)) :=
  match out with
  | [] => []
  | glRotatef angle x y z :: out' => (angle, (x, y, z)) :: rotations_of out'
  | _ :: out' => rotations_of out'
  end.

(** *** Pointer events *)

Inductive mouse_event : Set :=
| Press (pos : QPoint)
| Move (pos : QPoint)
| Release.

Definition handle (self : SkyboxPreview) (ev : mouse_event) : SkyboxPreview :=
  match ev with
  | Press pos => mousePressEvent pos self
  | Move pos => mouseMoveEvent pos self
  | Release => mouseReleaseEvent self
  end.

(** The widget after a run of pointer events. *)
Definition run_events (events : list mouse_event) (self : SkyboxPreview)
  : SkyboxPreview :=
  fold_left handle events self.

(** ** Consistency of the cache with the OpenGL context *)

(** Every cached name is a non-zero name in use, and no two faces share
    one. *)
Definition cache_ok (self : SkyboxPreview) (live : gl_names) : Prop :=
  (forall face t, get self face = Some t -> t ∈ live /\ t <> 0%N) /\
  (forall face1 face2 t,
     get self face1 = Some t -> get self face2 = Some t -> face1 = face2).

(** The window with another preview widget state. *)
Definition set_preview (p : SkyboxPreview) (self : SkyboxGenerator)
  : SkyboxGenerator :=
  {| radio_six := radio_six self;
     face_inputs := face_inputs self;
     stretch_path_edit := stretch_path_edit self;
     btn_browse_stretch := btn_browse_stretch self;
     stretch_rotate_btn := stretch_rotate_btn self;
     stretch_flip_btn := stretch_flip_btn self;
     preview := p |}.

(** A bitmap whose rows agree with its size. *)
Definition image_ok (img : Image) : Prop :=
  length (img_rows img) = N.to_nat (snd (img_size img)) /\
  Forall (fun row => length row = N.to_nat (fst (img_size img))) (img_rows img).

(** The pixel buffers handed to [glTexImage2D], in order. *)
Fixpoint uploads_of (out : list gl_cmd) : list (N * N * list Byte.byte) :=
  match out with
  | [] => []
  | glTexImage2D _ _ _ w h _ _ _ data :: out' => (w, h, data) :: uploads_of out'
  | _ :: out' => uploads_of out'
  end.

(** The names deleted, in order. *)
Fixpoint deleted_of (out : list gl_cmd) : list N :=
  match out with
  | [] => []
  | glDeleteTextures names :: out' => names ++ deleted_of out'
  | _ :: out' => deleted_of out'
  end.

(** A 2 x 1 bitmap. *)
Definition two_pixel_image : Image :=
  {| img_size := (2%N, 1%N);
     img_rows := [[(Byte.x01, Byte.x02, Byte.x03, Byte.xff);
                   (Byte.x04, Byte.x05, Byte.x06, Byte.xff)]] |}.

(** The row of a face whose five widgets all have the enabled flag [b]. *)
Definition row_enabled (b : bool) : FaceInputs := mkFaceInputs b b b b b.

(** A window in which the row of face dn was never built. *)
Definition window_without_dn : SkyboxGenerator :=
  {| radio_six := true;
     face_inputs := delete "dn" (face_inputs built_window);
     stretch_path_edit := true;
     btn_browse_stretch := true;
     stretch_rotate_btn := true;
     stretch_flip_btn := true;
     preview := init_preview |}.

(** ** The export: [_swap_rb_channels] and [generateSkybox] *)

(** [_swap_rb_channels], on a bitmap in mode RGBA: the red and the blue
    channel change places. *)
Definition _swap_rb_channels (img : Image) : Image :=
  {| img_size := img_size img;
     img_rows := map (map (fun '(r, g, b, a) => (b, g, r, a))) (img_rows img) |}.

(** The images the window holds: [face_images] (a face without an image
    is absent) and [stretch_image]. *)
Record Images : Type := mkImages {
  face_images : gmap string Image;
  stretch_image : option Image
}.

(** A path [os.path.join(os.getcwd(), c1, ..., cn)], as its components
    c1 ... cn. *)
Abbreviation path := (list string).

Definition temp_folder : path := ["temp_skybox_images"%string].

(** What [generateSkybox] does to the user and to the disk: the message
    boxes ([warn_missing_title] is the warning "Missing Title",
    [ask_overwrite] the question "Overwrite?", [warn_missing_face] the
    warning "Missing Image", [warn_no_stretch] the warning "No Stretch
    Image", [info_done] the information "Done"), [shutil.rmtree],
    [os.makedirs] and [img.save(path, format='PNG')]. *)
Inductive io_event : Type :=
| warn_missing_title
| ask_overwrite (title : string)
| rmtree (p : path)
| makedirs (p : path)
| warn_missing_face (face : string)
| warn_no_stretch
| save_png (p : path) (img : Image)
| info_done (output_folder : path)
| rmtree_ignore_errors (p : path)
| makedirs_exist_ok (p : path).

(** The two files of one face: the PNG, and the channel-swapped PNG under
    the extension .tex. *)
Definition export_face (output_folder : path) (face : string) (img : Image)
  : list io_event :=
  [ save_png (output_folder ++ [String.append "sky512_" (String.append face ".png")]) img;
    save_png (output_folder ++ [String.append "sky512_" (String.append face ".tex")])
      (_swap_rb_channels img) ].

(** The loop of the six-image mode; the flag tells whether it ran to its
    end. *)
Fixpoint export_six (names : list string) (images : gmap string Image)
    (output_folder : path) : list io_event * bool :=
  match names with
  | [] => ([], true)
  | face :: names' =>
      match images !! face with
      | None => ([warn_missing_face face], false)
      | Some img =>
          let '(events, finished) := export_six names' images output_folder in
          (export_face output_folder face img ++ events, finished)
      end
  end.

(** [generateSkybox].  [title] is the stripped text of the title field,
    [folder_exists] the answer of [os.path.exists(output_folder)],
    [reply_yes] whether the user answers Yes to the question.  The result
    is what the call does, in order, when no disk operation fails. *)
Definition generateSkybox (self : SkyboxGenerator) (imgs : Images)
    (title : string) (folder_exists reply_yes : bool) : list io_event :=
  if String.eqb title "" then [warn_missing_title]
  else
    let output_folder : path := [title] in
    if folder_exists && negb reply_yes then [ask_overwrite title]
    else
      let opening :=
        (if folder_exists then [ask_overwrite title; rmtree output_folder] else []) ++
        [makedirs output_folder] in
      let '(saves, finished) :=
        if radio_six self
        then export_six FACE_NAMES (face_images imgs) output_folder
        else
          match stretch_image imgs with
          | None => ([warn_no_stretch], false)
          | Some img =>
              (flat_map (fun face => export_face output_folder face img) FACE_NAMES,
               true)
          end in
      if finished
      then opening ++ saves ++
           [ info_done output_folder;
             rmtree_ignore_errors temp_folder;
             makedirs_exist_ok temp_folder ]
      else opening ++ saves.

(** The files written, in order. *)
Fixpoint saves_of (events : list io_event) : list (path * Image) :=
  match events with
  | [] => []
  | save_png p img :: events' => (p, img) :: saves_of events'
  | _ :: events' => saves_of events'
  end.

(** The files of a list of faces, each with its image. *)
Definition files_of (output_folder : path) (items : list (string * Image))
  : list (path * Image) :=
  flat_map (fun '(face, img) =>
              [ (output_folder ++ [String.append "sky512_" (String.append face ".png")], img);
                (output_folder ++ [String.append "sky512_" (String.append face ".tex")],
                 _swap_rb_channels img) ]) items.

(** A window in the six-image mode and one in the stretch mode. *)
Definition six_window : SkyboxGenerator := loaded_window.

Definition stretch_window : SkyboxGenerator :=
  {| radio_six := false;
     face_inputs := face_inputs built_window;
     stretch_path_edit := true;
     btn_browse_stretch := true;
     stretch_rotate_btn := true;
     stretch_flip_btn := true;
     preview := set_use_spherical_uv true init_preview |}.

(** All six faces hold the 2 x 1 bitmap; only the first two do. *)
Definition six_images : Images :=
  {| face_images := list_to_map (map (fun f => (f, two_pixel_image)) FACE_NAMES);
     stretch_image := None |}.

Definition two_images : Images :=
  {| face_images := list_to_map [("ft"%string, two_pixel_image); ("bk"%string, two_pixel_image)];
     stretch_image := None |}.

Definition stretch_only : Images :=
  {| face_images := ∅; stretch_image := Some two_pixel_image |}.

(** ** The bulk import *)

(** [str.lower] and [str.endswith]; file names are taken as ASCII
    strings. *)
Definition lower_ascii (c : Ascii.ascii) : Ascii.ascii :=
  let n := Ascii.nat_of_ascii c in
  if (65 <=? n)%nat && (n <=? 90)%nat then Ascii.ascii_of_nat (n + 32) else c.

Fixpoint lower (s : string) : string :=
  match s with
  | EmptyString => EmptyString
  | String c s' => String (lower_ascii c) (lower s')
  end.

Fixpoint endswith (s suffix : string) : bool :=
  if String.eqb s suffix then true
  else match s with
       | EmptyString => false
       | String _ s' => endswith s' suffix
       end.

(** The inner loop of [bulkImportImages]: the first face of
    [FACE_NAMES] whose name followed by .png ends the lower-cased file
    name. *)
Definition face_for_file (fname : string) : option string :=
  List.find (fun face => endswith (lower fname) (String.append face ".png")) FACE_NAMES.

(** An entry of the listed folder: its name, whether it is a regular
    file, and the image [copyToTemp] staged for it and [Image.open] read
    back ([None] when [copyToTemp] failed). *)
Record dir_entry : Type := mkEntry {
  fname : string;
  is_file : bool;
  staged : option Image
}.

(** One turn of the outer loop of [bulkImportImages], on the images, the
    preview widget and the texture names of the context.  (The text set
    on the row's path field is not part of the model.) *)
Definition import_entry (st : Images * SkyboxPreview * gl_names) (e : dir_entry)
  : Images * SkyboxPreview * gl_names :=
  let '(imgs, p, live) := st in
  if is_file e then
    match face_for_file (fname e) with
    | Some face =>
        match staged e with
        | Some img =>
            let r := loadTexture face img p live in
            ({| face_images := <[face := img]> (face_images imgs);
                stretch_image := stretch_image imgs |},
             r.1.1, r.1.2)
        | None => st
        end
    | None => st
    end
  else st.

(** [bulkImportImages] on the listing of the chosen folder. *)
Definition bulkImportImages (entries : list dir_entry)
    (st : Images * SkyboxPreview * gl_names) : Images * SkyboxPreview * gl_names :=
  fold_left import_entry entries st.

(** ** The spherical mapping on IEEE doubles *)

(** [cubeToSphereUV] once more, on binary64 floats with Python's rules:
    products and sums round and may overflow to infinity or underflow to
    zero without raising, a division by a zero divisor raises
    [ZeroDivisionError], [math.sqrt] and [math.asin] raise [ValueError]
    outside their domain.  The two functions of the C library behind
    [math.atan2] and [math.asin] are parameters. *)
Module Float64.

Import PrimFloat.
Local Open Scope float_scope.

Definition truediv (a b : float) : exn + float :=
  if b =? 0 then raise ZeroDivisionError else ret (a / b).

Definition math_sqrt (x : float) : exn + float :=
  if x <? 0 then raise ValueError else ret (sqrt x).

Definition math_pi : float := 0x1.921fb54442d18p+1.

Section Libm.

Variable libm_atan2 : float -> float -> float.
Variable libm_asin : float -> float.

Definition math_asin (x : float) : exn + float :=
  if (x <? -1) || (1 <? x) then raise ValueError else ret (libm_asin x).

Definition cubeToSphereUV (pos : float * float * float) : exn + (float * float) :=
  let '(x, y, z) := pos in
  do length <- math_sqrt (x * x + y * y + z * z) ;
  do nx <- truediv x length ;
  do ny <- truediv y length ;
  do nz <- truediv z length ;
  let u := 0.5 + libm_atan2 nz nx / (2 * math_pi) in
  do a <- math_asin ny ;
  let v := 0.5 - a / math_pi in
  ret (u, v).

End Libm.

(** [k * p], componentwise. *)
Definition scale (k : float) (p : float * float * float) : float * float * float :=
  let '(x, y, z) := p in (k * x, k * y, k * z).


End Float64.

(** ** Where the idealisation of floats is exact enough *)

(** Every coordinate is at most [b] in absolute value. *)
Definition bounded (b : R) (p : vec3) : Prop :=
  let '(x, y, z) := p in (Rabs x <= b /\ Rabs y <= b /\ Rabs z <= b)%R.

(** No coordinate is so large that its square overflows a double, and one
    is large enough for its square not to underflow. *)
Definition in_float_range (p : vec3) : Prop :=
  let '(x, y, z) := p in
  bounded 1e150 p /\
  (1e-150 <= Rabs x \/ 1e-150 <= Rabs y \/ 1e-150 <= Rabs z)%R.

(** The range of a C [int], in which Qt delivers widths and heights. *)
Definition c_int (n : Z) : Prop := (- 2 ^ 31 <= n < 2 ^ 31)%Z.

(** ** Facts about the normalisation *)

Section Normalisation.

Local Open Scope R_scope.

Lemma norm2_nonneg p : 0 <= norm2 p.
Proof. destruct p as [[x y] z]; unfold norm2; nra. Qed.

Lemma norm2_zero_origin p : norm2 p = 0 -> p = origin.
Proof.
  destruct p as [[x y] z]; unfold norm2, origin; intros H.
  assert (x = 0) by nra. assert (y = 0) by nra. assert (z = 0) by nra.
  congruence.
Qed.

Lemma math_sqrt_norm2 p : math_sqrt (norm2 p) = ret (sqrt (norm2 p)).
Proof.
  unfold math_sqrt. destruct (Rlt_dec (norm2 p) 0) as [H|_]; [|reflexivity].
  pose proof (norm2_nonneg p); lra.
Qed.



Lemma sqrt_norm2_pos p : p <> origin -> 0 < sqrt (norm2 p).
Proof.
  intros Hp. apply sqrt_lt_R0.
  destruct (Rle_lt_or_eq_dec _ _ (norm2_nonneg p)) as [H|H]; [exact H|].
  exfalso; apply Hp, norm2_zero_origin; congruence.
Qed.

(** The source's computation, with the argument of [math.sqrt] named. *)
Lemma cubeToSphereUV_unfold x y z :
  cubeToSphereUV (x, y, z) =
  (do length <- math_sqrt (norm2 (x, y, z)) ;
   do nx <- truediv x length ;
   do ny <- truediv y length ;
   do nz <- truediv z length ;
   do a <- math_asin ny ;
   ret (0.5 + math_atan2 nz nx / (2 * math_pi), 0.5 - a / math_pi)).
Proof. reflexivity. Qed.

Lemma truediv_zero a : truediv a 0 = raise ZeroDivisionError.
Proof. unfold truediv. destruct (Req_dec_T 0 0); [reflexivity|lra]. Qed.

Lemma truediv_nonzero a b : b <> 0 -> truediv a b = ret (a / b).
Proof. intros H. unfold truediv. destruct (Req_dec_T b 0); [lra|reflexivity]. Qed.

Lemma cubeToSphereUV_origin_raise :
  cubeToSphereUV origin = raise ZeroDivisionError.
Proof.
  unfold origin. rewrite cubeToSphereUV_unfold.
  unfold math_sqrt, norm2.
  destruct (Rlt_dec _ 0) as [H|_]; [lra|].
  replace (0 * 0 + 0 * 0 + 0 * 0) with 0 by ring.
  rewrite sqrt_0. cbn [bind ret]. rewrite truediv_zero. reflexivity.
Qed.

Lemma unit_component_bound c L : 0 < L -> c * c <= L * L -> -1 <= c / L <= 1.
Proof.
  intros HL Hc.
  assert (Hq : c = (c / L) * L) by (field; lra).
  set (q := c / L) in *. clearbody q. subst c.
  assert (HLL : 0 < L * L) by (apply Rmult_lt_0_compat; assumption).
  assert (Hq : q * q <= 1).
  { destruct (Rle_lt_dec (q * q) 1) as [Hle|Hgt]; [exact Hle|exfalso].
    assert (0 < (q * q - 1) * (L * L)) by (apply Rmult_lt_0_compat; lra).
    lra. }
  split; nra.
Qed.

Lemma math_asin_in_range c : -1 <= c <= 1 -> math_asin c = ret (asin c).
Proof.
  intros [Hlo Hhi]. unfold math_asin.
  destruct (Rlt_dec c (-1)); [lra|]. destruct (Rlt_dec 1 c); [lra|]. reflexivity.
Qed.

Lemma cubeToSphereUV_positive_norm p :
  0 < sqrt (norm2 p) -> cubeToSphereUV p = ret (sphere_uv p).
Proof.
  destruct p as [[x y] z]. intros HL.
  rewrite cubeToSphereUV_unfold, math_sqrt_norm2. cbn [bind ret].
  rewrite !truediv_nonzero by lra. cbn [bind ret].
  rewrite math_asin_in_range; [reflexivity|].
  apply unit_component_bound; [exact HL|].
  rewrite sqrt_sqrt by apply norm2_nonneg. unfold norm2. nra.
Qed.


(** C2 (as the code has it): at the origin [cubeToSphereUV] raises
    [ZeroDivisionError]; there is no fallback to an earlier or a default
    UV. *)
Theorem cubeToSphereUV_origin_ZeroDivisionError :
  cubeToSphereUV (0, 0, 0) = inl ZeroDivisionError.
Proof. exact cubeToSphereUV_origin_raise. Qed.

(** C2 (as the spec has it) fails: at the origin [cubeToSphereUV] returns
    no UV at all, in particular not (0.5, 0.5). *)
Lemma cubeToSphereUV_origin_no_uv :
  ~ (exists uv : R * R, cubeToSphereUV (0, 0, 0) = inr uv).
Proof.
  intros [uv H]. change (0, 0, 0) with origin in H.
  rewrite cubeToSphereUV_origin_raise in H. discriminate H.
Qed.






End Normalisation.

(** ** The two draw paths *)

Section Drawing.

Local Open Scope R_scope.

Lemma for_each_Done {A} (f : A -> list gl_cmd) (body : A -> GL unit) xs :
  (forall x, In x xs -> body x = Done (f x) tt) ->
  for_each xs body = Done (flat_map f xs) tt.
Proof.
  induction xs as [|x xs IH]; intros Hbody; [reflexivity|].
  cbn [for_each flat_map]. rewrite (Hbody x) by (left; reflexivity).
  cbn [gl_bind]. rewrite IH by (intros y Hy; apply Hbody; right; exact Hy).
  reflexivity.
Qed.

Lemma on_unit_cube_norm p : on_unit_cube p -> 1 <= norm2 p.
Proof.
  destruct p as [[x y] z]. unfold on_unit_cube, norm2.
  intros [H|[H|[H|[H|[H|H]]]]]; subst; nra.
Qed.

Lemma on_unit_cube_sqrt p : on_unit_cube p -> 1 <= sqrt (norm2 p).
Proof.
  intros H. rewrite <- sqrt_1. apply sqrt_le_1; [lra| |].
  - apply norm2_nonneg.
  - apply on_unit_cube_norm, H.
Qed.

Lemma cubeToSphereUV_on_cube p :
  on_unit_cube p -> cubeToSphereUV p = ret (sphere_uv p).
Proof.
  intros H. apply cubeToSphereUV_positive_norm.
  pose proof (on_unit_cube_sqrt p H). lra.
Qed.

Lemma vertex3f_Done p : vertex3f p = Done [vertex_cmd p] tt.
Proof. destruct p as [[x y] z]. reflexivity. Qed.

Lemma strip_column_Done sub v0 v1 v2 v3 t0 t1 j :
  sub <> 0%nat -> quad_on_cube v0 v1 v2 v3 ->
  strip_column sub v0 v1 v2 v3 t0 t1 j =
  Done (column_out v0 v1 v2 v3 t0 t1 (INR j / INR sub)) tt.
Proof.
  intros Hsub Hq. unfold strip_column.
  rewrite truediv_nonzero by (apply not_0_INR, Hsub).
  cbn [lift ret gl_bind].
  fold (grid_point v0 v1 v2 v3 (INR j / INR sub) t0).
  fold (grid_point v0 v1 v2 v3 (INR j / INR sub) t1).
  rewrite !cubeToSphereUV_on_cube by apply Hq.
  rewrite !vertex3f_Done. reflexivity.
Qed.

Lemma strip_Done sub v0 v1 v2 v3 i :
  sub <> 0%nat -> quad_on_cube v0 v1 v2 v3 ->
  strip sub v0 v1 v2 v3 i = Done (strip_out sub v0 v1 v2 v3 i) tt.
Proof.
  intros Hsub Hq. unfold strip.
  rewrite !truediv_nonzero by (apply not_0_INR, Hsub).
  cbn [lift ret gl_bind emit].
  rewrite (for_each_Done
             (fun j => column_out v0 v1 v2 v3 (INR i / INR sub)
                         (INR (i + 1) / INR sub) (INR j / INR sub)))
    by (intros j _; apply strip_column_Done; assumption).
  unfold strip_out, strip_columns. rewrite flat_map_concat_map. reflexivity.
Qed.

Lemma getitem_nth {A} (l : list A) i a : nth_error l i = Some a -> getitem l i = ret a.
Proof. intros H. unfold getitem. rewrite H. reflexivity. Qed.

Lemma drawFaceSpherical_Done self vs verts_idx v0 v1 v2 v3 :
  quad_of vs verts_idx = Some (v0, v1, v2, v3) ->
  quad_on_cube v0 v1 v2 v3 ->
  drawFaceSpherical self vs verts_idx =
  Done (spherical_out (subdivide self) v0 v1 v2 v3) tt.
Proof.
  intros Hquad Hq. unfold quad_of in Hquad.
  destruct verts_idx as [|i0 [|i1 [|i2 [|i3 rest]]]]; try discriminate.
  destruct (nth_error vs i0) as [w0|] eqn:E0; try discriminate.
  destruct (nth_error vs i1) as [w1|] eqn:E1; try discriminate.
  destruct (nth_error vs i2) as [w2|] eqn:E2; try discriminate.
  destruct (nth_error vs i3) as [w3|] eqn:E3; try discriminate.
  injection Hquad as -> -> -> ->.
  unfold drawFaceSpherical, getitem at 1 3 5 7. cbn [nth_error ret lift gl_bind].
  rewrite (getitem_nth _ _ _ E0), (getitem_nth _ _ _ E1),
          (getitem_nth _ _ _ E2), (getitem_nth _ _ _ E3).
  cbn [ret lift gl_bind].
  rewrite (for_each_Done (strip_out (subdivide self) v0 v1 v2 v3)); [reflexivity|].
  intros i Hi. apply strip_Done; [|exact Hq].
  unfold range in Hi. apply in_seq in Hi. lia.
Qed.

Lemma drawFaceFlat_Done vs i0 i1 i2 i3 rest v0 v1 v2 v3 :
  quad_of vs (i0 :: i1 :: i2 :: i3 :: rest) = Some (v0, v1, v2, v3) ->
  drawFaceFlat vs (i0 :: i1 :: i2 :: i3 :: rest) = Done (flat_out v0 v1 v2 v3) tt.
Proof.
  intros Hquad. unfold quad_of in Hquad.
  destruct (nth_error vs i0) as [w0|] eqn:E0; try discriminate.
  destruct (nth_error vs i1) as [w1|] eqn:E1; try discriminate.
  destruct (nth_error vs i2) as [w2|] eqn:E2; try discriminate.
  destruct (nth_error vs i3) as [w3|] eqn:E3; try discriminate.
  injection Hquad as -> -> -> ->.
  unfold drawFaceFlat. cbn [combine for_each].
  rewrite (getitem_nth _ _ _ E0), (getitem_nth _ _ _ E1),
          (getitem_nth _ _ _ E2), (getitem_nth _ _ _ E3).
  cbn [ret lift gl_bind emit gl_ret app].
  rewrite !vertex3f_Done, combine_nil. reflexivity.
Qed.

(** The six quads of [faces] exist in [vertices] and lie on the cube. *)
Lemma faces_on_cube :
  Forall (fun item =>
            exists v0 v1 v2 v3,
              quad_of vertices (fst (snd item)) = Some (v0, v1, v2, v3) /\
              quad_on_cube v0 v1 v2 v3) faces.
Proof.
  unfold faces. repeat constructor; cbn [fst snd];
    do 4 eexists; (split; [reflexivity|]);
    intros s t; unfold grid_point, lerp3D, on_unit_cube, size;
    first [ left; ring
          | right; left; ring
          | right; right; left; ring
          | right; right; right; left; ring
          | right; right; right; right; left; ring
          | right; right; right; right; right; ring ].
Qed.

(** *** Reading the spherical output *)

Lemma split_strips_body body : forall acc rest,
  forallb is_vertex_data body = true ->
  split_strips (Some acc) (body ++ glEnd :: rest) =
  (rev acc ++ body) :: split_strips None rest.
Proof.
  induction body as [|c body IH]; intros acc rest Hbody.
  - cbn [app split_strips]. rewrite app_nil_r. reflexivity.
  - cbn [forallb] in Hbody. apply andb_prop in Hbody as [Hc Hbody].
    assert (Hstep : split_strips (Some acc) ((c :: body) ++ glEnd :: rest) =
                    split_strips (Some (c :: acc)) (body ++ glEnd :: rest))
      by (destruct c; try discriminate Hc; reflexivity).
    rewrite Hstep, IH by exact Hbody.
    cbn [rev]. rewrite <- app_assoc. reflexivity.
Qed.

Lemma vertex_cmd_data p : is_vertex_data (vertex_cmd p) = true.
Proof. destruct p as [[x y] z]. reflexivity. Qed.

Lemma vertex_cmd_vertex p : is_vertex (vertex_cmd p) = true.
Proof. destruct p as [[x y] z]. reflexivity. Qed.

Lemma column_out_data v0 v1 v2 v3 t0 t1 s :
  forallb is_vertex_data (column_out v0 v1 v2 v3 t0 t1 s) = true.
Proof.
  unfold column_out. cbn [forallb]. rewrite !vertex_cmd_data. reflexivity.
Qed.

Lemma column_out_vertex_count v0 v1 v2 v3 t0 t1 s :
  vertex_count (column_out v0 v1 v2 v3 t0 t1 s) = 2%nat.
Proof.
  unfold vertex_count, column_out. cbn [List.filter is_vertex texcoord_cmd].
  rewrite !vertex_cmd_vertex. reflexivity.
Qed.

Lemma forallb_concat {A} (f : A -> bool) ls :
  Forall (fun l => forallb f l = true) ls -> forallb f (concat ls) = true.
Proof.
  induction 1 as [|l ls Hl _ IH]; [reflexivity|].
  cbn [concat]. rewrite forallb_app, Hl, IH. reflexivity.
Qed.

Lemma vertex_count_concat n ls :
  Forall (fun l => vertex_count l = n) ls ->
  vertex_count (concat ls) = (n * length ls)%nat.
Proof.
  unfold vertex_count. induction 1 as [|l ls Hl _ IH]; cbn [concat length].
  - cbn [List.filter length]. lia.
  - rewrite List.filter_app, length_app, Hl, IH. lia.
Qed.

Lemma strip_columns_length sub v0 v1 v2 v3 i :
  length (strip_columns sub v0 v1 v2 v3 i) = (sub + 1)%nat.
Proof. unfold strip_columns, range. rewrite length_map, length_seq. reflexivity. Qed.

Lemma strip_columns_two sub v0 v1 v2 v3 i :
  Forall (fun c => vertex_count c = 2%nat) (strip_columns sub v0 v1 v2 v3 i).
Proof.
  unfold strip_columns. apply Forall_map, Forall_forall.
  intros j _. apply column_out_vertex_count.
Qed.

Lemma strip_columns_data sub v0 v1 v2 v3 i :
  forallb is_vertex_data (concat (strip_columns sub v0 v1 v2 v3 i)) = true.
Proof.
  apply forallb_concat. unfold strip_columns. apply Forall_map, Forall_forall.
  intros j _. apply column_out_data.
Qed.

(** The strips of the spherical output are its rows of columns. *)
Lemma strips_of_spherical_out sub v0 v1 v2 v3 :
  strips_of (spherical_out sub v0 v1 v2 v3) =
  map (fun i => concat (strip_columns sub v0 v1 v2 v3 i)) (range sub).
Proof.
  unfold strips_of, spherical_out. induction (range sub) as [|i more IH]; [reflexivity|].
  cbn [flat_map map]. unfold strip_out at 1.
  cbn [app split_strips]. rewrite <- app_assoc. cbn [app].
  rewrite split_strips_body by apply strip_columns_data.
  cbn [rev app]. rewrite IH. reflexivity.
Qed.

Lemma spherical_out_shape sub v0 v1 v2 v3 :
  strips_shape sub (spherical_out sub v0 v1 v2 v3).
Proof.
  unfold strips_shape. rewrite strips_of_spherical_out. split.
  - unfold range. rewrite length_map, length_seq. reflexivity.
  - apply Forall_map, Forall_forall. intros i _.
    exists (strip_columns sub v0 v1 v2 v3 i).
    split; [reflexivity|]. split; [apply strip_columns_length|].
    split; [apply strip_columns_two|].
    rewrite (vertex_count_concat 2) by apply strip_columns_two.
    rewrite strip_columns_length. reflexivity.
Qed.

(** *** Reading the whole frame *)

Lemma bind_sequence_app out1 out2 :
  bind_sequence (out1 ++ out2) = bind_sequence out1 ++ bind_sequence out2.
Proof.
  induction out1 as [|c out1 IH]; [reflexivity|].
  destruct c; cbn [app bind_sequence]; rewrite IH; reflexivity.
Qed.

Lemma bind_sequence_data out :
  forallb is_vertex_data out = true -> bind_sequence out = [].
Proof.
  induction out as [|c out IH]; [reflexivity|].
  cbn [forallb]. intros H. apply andb_prop in H as [Hc H].
  destruct c; try discriminate Hc; cbn [bind_sequence]; apply IH, H.
Qed.

Lemma bind_sequence_spherical_out sub v0 v1 v2 v3 :
  bind_sequence (spherical_out sub v0 v1 v2 v3) = [].
Proof.
  unfold spherical_out. induction (range sub) as [|i more IH]; [reflexivity|].
  cbn [flat_map]. rewrite bind_sequence_app, IH. unfold strip_out.
  cbn [bind_sequence]. rewrite bind_sequence_app.
  rewrite bind_sequence_data by apply strip_columns_data. reflexivity.
Qed.

Lemma bind_sequence_flat_out v0 v1 v2 v3 :
  bind_sequence (flat_out v0 v1 v2 v3) = [].
Proof.
  destruct v0 as [[? ?] ?], v1 as [[? ?] ?], v2 as [[? ?] ?], v3 as [[? ?] ?].
  reflexivity.
Qed.

Lemma bind_sequence_face_out self item :
  bind_sequence (face_out self item) = [bound_name (textures self !! fst item)].
Proof.
  destruct item as [face_name [verts_idx uvs]]. unfold face_out.
  cbn [bind_sequence fst]. f_equal.
  destruct (quad_of vertices verts_idx) as [[[[v0 v1] v2] v3]|]; [|reflexivity].
  destruct (use_spherical_uv self).
  - apply bind_sequence_spherical_out.
  - apply bind_sequence_flat_out.
Qed.

Lemma draw_face_Done self item :
  In item faces -> draw_face self item = Done (face_out self item) tt.
Proof.
  intros Hin. pose proof faces_on_cube as Hall.
  rewrite Forall_forall in Hall.
  destruct (Hall item) as (v0 & v1 & v2 & v3 & Hquad & Hcube).
  { apply list_elem_of_In, Hin. }
  destruct item as [face_name [verts_idx uvs]]. cbn [fst snd] in Hquad.
  unfold draw_face, face_out. rewrite Hquad.
  destruct (use_spherical_uv self).
  - rewrite (drawFaceSpherical_Done _ _ _ _ _ _ _ Hquad Hcube). reflexivity.
  - destruct verts_idx as [|i0 [|i1 [|i2 [|i3 rest]]]]; try discriminate Hquad.
    rewrite (drawFaceFlat_Done _ _ _ _ _ _ _ _ _ _ Hquad). reflexivity.
Qed.

Lemma drawSkybox_Done self : drawSkybox self = Done (skybox_out self) tt.
Proof.
  unfold drawSkybox, skybox_out.
  rewrite (for_each_Done (face_out self)) by (intros; apply draw_face_Done; assumption).
  reflexivity.
Qed.

Lemma bind_sequence_skybox_out self :
  bind_sequence (skybox_out self) =
  map (fun face => bound_name (textures self !! face)) (map fst faces).
Proof.
  unfold skybox_out. cbn [app bind_sequence]. rewrite bind_sequence_app.
  cbn [bind_sequence]. rewrite app_nil_r.
  induction faces as [|item more IH]; [reflexivity|].
  cbn [flat_map map]. rewrite bind_sequence_app, bind_sequence_face_out, IH.
  reflexivity.
Qed.

(** C10: every grid point of every face quad, at any parameters [s] and
    [t], has a coordinate equal to 1 or -1, so its norm is at least 1: the
    square root is taken of a non-negative number, the divisor is not
    zero, the argument of [math.asin] is in [-1, 1], [cubeToSphereUV]
    returns, and so does the spherical draw of the face. *)
Theorem spherical_path_normalisation_safe :
  Forall (fun item =>
            exists v0 v1 v2 v3,
              quad_of vertices (fst (snd item)) = Some (v0, v1, v2, v3) /\
              (forall s t : R,
                 let p := grid_point v0 v1 v2 v3 s t in
                 on_unit_cube p /\
                 1 <= norm2 p /\
                 1 <= sqrt (norm2 p) /\
                 -1 <= snd (fst p) / sqrt (norm2 p) <= 1 /\
                 cubeToSphereUV p = inr (sphere_uv p)) /\
              (forall self,
                 drawFaceSpherical self vertices (fst (snd item)) =
                 Done (spherical_out (subdivide self) v0 v1 v2 v3) tt))
         faces.
Proof.
  eapply Forall_impl; [apply faces_on_cube|].
  intros item (v0 & v1 & v2 & v3 & Hquad & Hcube).
  exists v0, v1, v2, v3. split; [exact Hquad|]. split.
  - intros s t p. pose proof (Hcube s t) as Hp. fold p in Hp.
    pose proof (on_unit_cube_norm p Hp) as Hn.
    pose proof (on_unit_cube_sqrt p Hp) as Hs.
    repeat split; try assumption; try (apply cubeToSphereUV_on_cube, Hp).
    + apply unit_component_bound; [lra|].
      rewrite sqrt_sqrt by apply norm2_nonneg.
      destruct p as [[x y] z]. unfold norm2. cbn [fst snd]. nra.
    + apply unit_component_bound; [lra|].
      rewrite sqrt_sqrt by apply norm2_nonneg.
      destruct p as [[x y] z]. unfold norm2. cbn [fst snd]. nra.
  - intros self. apply drawFaceSpherical_Done; assumption.
Qed.

(** C7: for every tessellation factor [sub] (in particular every
    [sub >= 1]), the spherical draw of a face returns, and its output has
    exactly [sub] triangle strips, each made of [sub + 1] columns of two
    vertices, [2 * (sub + 1)] vertices in all. *)
Theorem drawFaceSpherical_strips (self : SkyboxPreview) :
  Forall (fun item =>
            exists out,
              drawFaceSpherical self vertices (fst (snd item)) = Done out tt /\
              strips_shape (subdivide self) out)
         faces.
Proof.
  eapply Forall_impl; [apply faces_on_cube|].
  intros item (v0 & v1 & v2 & v3 & Hquad & Hcube).
  exists (spherical_out (subdivide self) v0 v1 v2 v3). split.
  - apply drawFaceSpherical_Done; assumption.
  - apply spherical_out_shape.
Qed.

(** The case [sub = 2]: two strips of six vertices each. *)
Lemma drawFaceSpherical_sub2 :
  Forall (fun item =>
            exists out,
              drawFaceSpherical sub2_preview vertices (fst (snd item)) = Done out tt /\
              length (strips_of out) = 2%nat /\
              Forall (fun body => vertex_count body = 6%nat) (strips_of out))
         faces.
Proof.
  eapply Forall_impl; [apply faces_on_cube|].
  intros item (v0 & v1 & v2 & v3 & Hquad & Hcube).
  exists (spherical_out 2 v0 v1 v2 v3).
  split; [apply (drawFaceSpherical_Done sub2_preview); assumption|].
  destruct (spherical_out_shape 2 v0 v1 v2 v3) as [Hlen Hall].
  split; [exact Hlen|].
  eapply Forall_impl; [exact Hall|].
  intros body (columns & _ & _ & _ & Hcount). exact Hcount.
Qed.

(** C9: for every face, the flat draw returns, and what it issues is one
    quad, [glBegin(GL_QUADS)] ... [glEnd], in which the face's four corners
    follow in their order, each right after its texture coordinate: (0,0)
    before the first corner, (1,0) before the second, (1,1) before the
    third, (0,1) before the fourth. *)
Theorem drawFaceFlat_texcoords :
  Forall (fun item =>
            exists out v0 v1 v2 v3,
              drawFaceFlat vertices (fst (snd item)) = Done out tt /\
              quad_of vertices (fst (snd item)) = Some (v0, v1, v2, v3) /\
              out = [ glBegin GL_QUADS;
                      glTexCoord2f 0 0; vertex_cmd v0;
                      glTexCoord2f 1 0; vertex_cmd v1;
                      glTexCoord2f 1 1; vertex_cmd v2;
                      glTexCoord2f 0 1; vertex_cmd v3;
                      glEnd ] /\
              texcoords_of out = [(0, 0); (1, 0); (1, 1); (0, 1)] /\
              vertices_of out = [v0; v1; v2; v3])
         faces.
Proof.
  eapply Forall_impl; [apply faces_on_cube|].
  intros [face_name [verts_idx uvs]] (v0 & v1 & v2 & v3 & Hquad & _).
  cbn [fst snd] in *.
  exists (flat_out v0 v1 v2 v3), v0, v1, v2, v3.
  destruct verts_idx as [|i0 [|i1 [|i2 [|i3 rest]]]]; try discriminate Hquad.
  split; [apply (drawFaceFlat_Done _ _ _ _ _ _ _ _ _ _ Hquad)|].
  split; [exact Hquad|]. split; [reflexivity|].
  destruct v0 as [[? ?] ?], v1 as [[? ?] ?], v2 as [[? ?] ?], v3 as [[? ?] ?].
  split; reflexivity.
Qed.

(** C4 (as the code has it): on every frame [drawSkybox] returns, and it
    binds and draws the faces in the order of its own [faces] table:
    ft, bk, rt, lf, up, dn. *)
Theorem drawSkybox_face_order (self : SkyboxPreview) :
  drawSkybox self = Done (skybox_out self) tt /\
  map fst faces = ["ft"; "bk"; "rt"; "lf"; "up"; "dn"]%string /\
  bind_sequence (issued (drawSkybox self)) =
  map (fun face => bound_name (textures self !! face))
      ["ft"; "bk"; "rt"; "lf"; "up"; "dn"]%string.
Proof.
  split; [apply drawSkybox_Done|]. split; [reflexivity|].
  rewrite drawSkybox_Done. cbn [issued]. apply bind_sequence_skybox_out.
Qed.

(** C4 (as the spec has it) fails: with textures 1 to 6 loaded on the
    faces in the order of [FACE_NAMES], a frame binds 1, 2, 4, 3, 5, 6. *)
Lemma drawSkybox_not_FACE_NAMES_order :
  bind_sequence (issued (drawSkybox numbered_preview)) = [1; 2; 4; 3; 5; 6]%N /\
  bind_sequence (issued (drawSkybox numbered_preview)) <>
  map (fun face => bound_name (textures numbered_preview !! face)) FACE_NAMES.
Proof.
  rewrite drawSkybox_Done. cbn [issued]. rewrite bind_sequence_skybox_out.
  split; [vm_compute; reflexivity|]. vm_compute. discriminate.
Qed.

End Drawing.

(** ** The texture cache *)

Section Cache.

Implicit Types (self : SkyboxPreview) (live : gl_names) (face : string).

Lemma gen_name_fresh live : gen_name live ∉ live.
Proof.
  unfold gen_name. pose proof (is_fresh ({[0%N]} ∪ live)) as H. set_solver.
Qed.

Lemma gen_name_nonzero live : gen_name live ≠ 0%N.
Proof.
  unfold gen_name. pose proof (is_fresh ({[0%N]} ∪ live)) as H. set_solver.
Qed.

(** [loadTexture] unfolded: whatever the bitmap, delete, generate, upload,
    store. *)
Lemma loadTexture_eq face img self live :
  loadTexture face img self live =
  let t := gen_name (after_delete self face live) in
  (set_textures (<[face := t]> (textures self)) self,
   {[t]} ∪ after_delete self face live,
   delete_cmds self face ++
   [ glGenTextures 1 t;
     glBindTexture GL_TEXTURE_2D t;
     glTexParameteri GL_TEXTURE_2D GL_TEXTURE_MIN_FILTER GL_LINEAR;
     glTexParameteri GL_TEXTURE_2D GL_TEXTURE_MAG_FILTER GL_LINEAR;
     glTexImage2D GL_TEXTURE_2D 0 GL_RGBA (fst (img_size img)) (snd (img_size img))
       0 GL_RGBA GL_UNSIGNED_BYTE (tobytes_raw_RGBA_flipped img) ]).
Proof.
  unfold loadTexture, after_delete, delete_cmds, get, convert_RGBA.
  destruct (img_size img) as [w h].
  destruct (textures self !! face); reflexivity.
Qed.

Lemma size_replace (live : gl_names) (t1 t2 : N) :
  t1 ∈ live -> t2 ∉ live ∖ {[t1]} ->
  base.size ({[t2]} ∪ live ∖ {[t1]}) = base.size live.
Proof.
  intros H1 H2.
  assert (E : base.size live = base.size ({[t1]} ∪ live ∖ {[t1]}))
    by (f_equal; apply union_difference_singleton_L, H1).
  rewrite E.
  rewrite (size_union {[t2]}) by set_solver.
  rewrite (size_union {[t1]}) by set_solver.
  rewrite !size_singleton. reflexivity.
Qed.

(** C3 (as the code has it): [loadTexture] never looks at the bitmap's
    dimensions.  For every face and every bitmap, of zero size or not, it
    deletes the face's old texture if there is one, generates a non-zero
    name that is not in use, uploads the bitmap with its own width and
    height, and stores the new name for the face; the other faces keep
    their entries. *)
Theorem loadTexture_uploads_any_bitmap face (img : Image) self live :
  let r := loadTexture face img self live in
  exists t,
    get r.1.1 face = Some t /\
    t <> 0%N /\
    (t ∉ after_delete self face live) /\
    r.1.2 = ({[t]} ∪ after_delete self face live) /\
    (forall other, other ≠ face -> get r.1.1 other = get self other) /\
    r.2 = delete_cmds self face ++
          [ glGenTextures 1 t;
            glBindTexture GL_TEXTURE_2D t;
            glTexParameteri GL_TEXTURE_2D GL_TEXTURE_MIN_FILTER GL_LINEAR;
            glTexParameteri GL_TEXTURE_2D GL_TEXTURE_MAG_FILTER GL_LINEAR;
            glTexImage2D GL_TEXTURE_2D 0 GL_RGBA
              (fst (img_size img)) (snd (img_size img))
              0 GL_RGBA GL_UNSIGNED_BYTE (tobytes_raw_RGBA_flipped img) ].
Proof.
  intros r. subst r. rewrite loadTexture_eq. cbn zeta. cbn [fst snd].
  exists (gen_name (after_delete self face live)).
  repeat split.
  - unfold get, set_textures. cbn [textures]. apply lookup_insert_eq.
  - apply gen_name_nonzero.
  - apply gen_name_fresh.
  - intros other Hne. unfold get, set_textures. cbn [textures].
    apply lookup_insert_ne. congruence.
Qed.

(** C3 (as the spec has it) fails: loading a bitmap of zero width and
    height on an empty cache gives the face a texture. *)
Lemma loadTexture_zero_size_changes_cache :
  img_size empty_image = (0%N, 0%N) /\
  get init_preview "ft" = None /\
  get (loadTexture "ft" empty_image init_preview ∅).1.1 "ft" <> get init_preview "ft".
Proof.
  split; [reflexivity|]. split; [reflexivity|].
  rewrite loadTexture_eq. cbn zeta. cbn [fst snd].
  unfold get at 1, set_textures. cbn [textures].
  rewrite lookup_insert_eq. discriminate.
Qed.

(** X30: two calls of [loadTexture] for one face in a row.  Each call
    stores a non-zero name and uploads its bitmap; the second call deletes
    the first texture, then generates a name that is not in use, binds it,
    sets the two filters and uploads; afterwards the cache maps the face
    to the second name, the first name is in use only if the driver gave
    it out again, and the context holds as many textures as after the
    first call. *)
Theorem loadTexture_twice_one_live face (img1 img2 : Image) self live :
  let first := loadTexture face img1 self live in
  let second := loadTexture face img2 first.1.1 first.1.2 in
  exists t1 t2,
    get first.1.1 face = Some t1 /\ t1 <> 0%N /\ t1 ∈ first.1.2 /\
    uploads_of first.2 =
      [(fst (img_size img1), snd (img_size img1), tobytes_raw_RGBA_flipped img1)] /\
    get second.1.1 face = Some t2 /\ t2 <> 0%N /\ t2 ∈ second.1.2 /\
    (t2 ∉ first.1.2 ∖ {[t1]}) /\
    second.1.2 = {[t2]} ∪ first.1.2 ∖ {[t1]} /\
    (t1 ≠ t2 -> t1 ∉ second.1.2) /\
    base.size second.1.2 = base.size first.1.2 /\
    second.2 =
      [ glDeleteTextures [t1];
        glGenTextures 1 t2;
        glBindTexture GL_TEXTURE_2D t2;
        glTexParameteri GL_TEXTURE_2D GL_TEXTURE_MIN_FILTER GL_LINEAR;
        glTexParameteri GL_TEXTURE_2D GL_TEXTURE_MAG_FILTER GL_LINEAR;
        glTexImage2D GL_TEXTURE_2D 0 GL_RGBA
          (fst (img_size img2)) (snd (img_size img2))
          0 GL_RGBA GL_UNSIGNED_BYTE (tobytes_raw_RGBA_flipped img2) ].
Proof.
  intros first second. subst second first.
  rewrite (loadTexture_eq face img1). cbn zeta. cbn [fst snd].
  set (t1 := gen_name (after_delete self face live)).
  set (live1 := {[t1]} ∪ after_delete self face live).
  set (self1 := set_textures (<[face:=t1]> (textures self)) self).
  assert (Hget1 : get self1 face = Some t1)
    by (unfold get, self1, set_textures; cbn [textures]; apply lookup_insert_eq).
  assert (Hdel : after_delete self1 face live1 = live1 ∖ {[t1]})
    by (unfold after_delete; rewrite Hget1; reflexivity).
  assert (Hcmd : delete_cmds self1 face = [glDeleteTextures [t1]])
    by (unfold delete_cmds; rewrite Hget1; reflexivity).
  rewrite loadTexture_eq. cbn zeta. cbn [fst snd]. rewrite !Hdel, Hcmd.
  set (t2 := gen_name (live1 ∖ {[t1]})).
  assert (Hin1 : t1 ∈ live1) by (unfold live1; set_solver).
  assert (Hfresh2 : t2 ∉ live1 ∖ {[t1]}) by apply gen_name_fresh.
  exists t1, t2.
  split; [exact Hget1|]. split; [apply gen_name_nonzero|]. split; [exact Hin1|].
  split; [unfold delete_cmds; destruct (get self face); reflexivity|].
  split; [unfold get, set_textures; cbn [textures]; apply lookup_insert_eq|].
  split; [apply gen_name_nonzero|].
  split; [set_solver|]. split; [exact Hfresh2|]. split; [reflexivity|].
  split; [set_solver|].
  split; [apply size_replace; assumption|].
  reflexivity.
Qed.

End Cache.

(** ** The mode switch *)

Section ModeSwitch.

Lemma set_faces_enabled_ok names six_mode : forall inputs,
  Forall (fun face => is_Some (inputs !! face)) names ->
  exists inputs', set_faces_enabled names six_mode inputs = inr inputs'.
Proof.
  induction names as [|face names IH]; intros inputs Hall.
  - exists inputs. reflexivity.
  - apply Forall_cons in Hall as [[row Hrow] Hrest].
    cbn [set_faces_enabled]. rewrite Hrow. apply IH.
    eapply Forall_impl; [exact Hrest|].
    intros other Hother. cbn beta. rewrite lookup_insert_is_Some.
    destruct (decide (face = other)); [left; assumption|right; split; assumption].
Qed.

Lemma click_radio_clears six (g : SkyboxGenerator) :
  rows_built g ->
  exists g',
    click_radio six g = inr g' /\
    textures (preview g') = ∅ /\
    use_spherical_uv (preview g') = negb six.
Proof.
  intros Hrows. unfold click_radio, updateMode. cbn [radio_six face_inputs preview].
  destruct (set_faces_enabled_ok FACE_NAMES six _ Hrows) as [inputs' ->].
  cbn [bind ret]. eexists. split; [reflexivity|]. split; reflexivity.
Qed.

Lemma loaded_window_rows_built : rows_built loaded_window.
Proof.
  unfold rows_built, FACE_NAMES.
  repeat (apply List.Forall_cons; [vm_compute; eexists; reflexivity|]).
  apply List.Forall_nil.
Qed.

(** The numbered cache is what six loads in the order of [FACE_NAMES]
    leave. *)
Lemma numbered_preview_loaded : (load_all empty_image).1 = numbered_preview.
Proof. vm_compute. reflexivity. Qed.

(** C1 (as the code has it): a click on either radio button runs
    [updateMode], which empties the texture cache, so that afterwards
    [get] finds no texture for any face, and sets the render mode to
    spherical exactly when the stretch button is the checked one. *)
Theorem mode_switch_clears_cache (six : bool) (g : SkyboxGenerator) :
  rows_built g ->
  exists g',
    click_radio six g = inr g' /\
    (forall face, get (preview g') face = None) /\
    use_spherical_uv (preview g') = negb six.
Proof.
  intros Hrows.
  destruct (click_radio_clears six g Hrows) as (g' & Hrun & Hempty & Hmode).
  exists g'. split; [exact Hrun|]. split; [|exact Hmode].
  intros face. unfold get. rewrite Hempty. apply lookup_empty.
Qed.

Lemma mode_switch_clears_cache_witness :
  exists g',
    click_radio false loaded_window = inr g' /\
    (forall face, get (preview g') face = None) /\
    use_spherical_uv (preview g') = negb false.
Proof.
  apply (mode_switch_clears_cache false loaded_window).
  unfold rows_built, FACE_NAMES.
  repeat (apply List.Forall_cons; [vm_compute; eexists; reflexivity|]).
  apply List.Forall_nil.
Defined.

(** C1 (as the spec has it) fails: with a texture loaded on every face,
    switching to the stretch mode leaves face ft without its texture. *)
Lemma mode_switch_drops_textures :
  exists g',
    click_radio false loaded_window = inr g' /\
    get (preview loaded_window) "ft" = Some 1%N /\
    get (preview g') "ft" <> get (preview loaded_window) "ft".
Proof.
  destruct (click_radio_clears false loaded_window loaded_window_rows_built)
    as (g' & Hrun & Hempty & _).
  exists g'. split; [exact Hrun|].
  assert (Hbefore : get (preview loaded_window) "ft" = Some 1%N)
    by (vm_compute; reflexivity).
  split; [exact Hbefore|].
  rewrite Hbefore. unfold get. rewrite Hempty, lookup_empty. discriminate.
Qed.

End ModeSwitch.

(** ** The camera *)

Section Camera.

Local Open Scope Z_scope.

Lemma mouseMoveEvent_pitch pos self :
  -90 <= rot_x self <= 90 -> -90 <= rot_x (mouseMoveEvent pos self) <= 90.
Proof.
  intros H. unfold mouseMoveEvent.
  destruct (last_pos self) as [last|]; [|exact H].
  destruct (QPoint_bool last); [|exact H].
  cbn [rot_x]. lia.
Qed.

Lemma moves_pitch moves : forall self,
  -90 <= rot_x self <= 90 ->
  -90 <= rot_x (fold_left (fun s p => mouseMoveEvent p s) moves self) <= 90.
Proof.
  induction moves as [|p moves IH]; intros self H; [exact H|].
  cbn [fold_left]. apply IH, mouseMoveEvent_pitch, H.
Qed.

(** The pitch stays in [-90, 90] over any drag. *)
Lemma drag_pitch_clamped press moves :
  -90 <= rot_x (drag press moves init_preview) <= 90.
Proof. unfold drag. apply moves_pitch. cbn. lia. Qed.

Lemma moves_yaw moves : forall prev self,
  last_pos self = Some prev ->
  Forall (fun p => QPoint_bool p = true) (prev :: moves) ->
  rot_y (fold_left (fun s p => mouseMoveEvent p s) moves self) =
  rot_y self + sum_dx prev moves.
Proof.
  induction moves as [|p moves IH]; intros prev self Hlast Hall.
  - cbn [fold_left sum_dx]. lia.
  - apply Forall_cons in Hall as [Hprev Hall].
    cbn [fold_left sum_dx].
    rewrite (IH p).
    + unfold mouseMoveEvent. rewrite Hlast, Hprev. cbn [rot_y]. lia.
    + unfold mouseMoveEvent. rewrite Hlast, Hprev. reflexivity.
    + exact Hall.
Qed.

(** The yaw is the initial yaw plus the frame-to-frame x-deltas, as long
    as no sampled position is the point (0, 0). *)
Lemma drag_yaw_sum press moves :
  Forall (fun p => QPoint_bool p = true) (press :: moves) ->
  rot_y (drag press moves init_preview) = -30 + sum_dx press moves.
Proof.
  intros Hall. unfold drag.
  rewrite (moves_yaw moves press); [reflexivity|reflexivity|exact Hall].
Qed.

(** C5 on the code: a drag that starts at the widget's origin is ignored,
    as [QPoint(0, 0)] is false in [if self.last_pos:].  After a press at
    (0, 0) and a move to (10, 5) the yaw is still -30, not
    -30 + 10 = -20, and the pitch still 20. *)
Theorem drag_anchored_at_origin_ignored :
  rot_y (drag (mkQPoint 0 0) [mkQPoint 10 5] init_preview) = -30 /\
  rot_x (drag (mkQPoint 0 0) [mkQPoint 10 5] init_preview) = 20 /\
  -30 + sum_dx (mkQPoint 0 0) [mkQPoint 10 5] = -20.
Proof. repeat split. Qed.

End Camera.

(** ** More on the spherical mapping *)

Section SphericalMapping.

Local Open Scope R_scope.

Lemma atan_nonpos x : x <= 0 -> atan x <= 0.
Proof.
  intros [H| ->]; [|rewrite atan_0; lra].
  pose proof (atan_increasing x 0 H) as Hlt. rewrite atan_0 in Hlt. lra.
Qed.

Lemma atan_pos x : 0 < x -> 0 < atan x.
Proof.
  intros H. pose proof (atan_increasing 0 x H) as Hlt. rewrite atan_0 in Hlt. exact Hlt.
Qed.

Lemma math_atan2_bound y x : - PI < math_atan2 y x <= PI.
Proof.
  pose proof PI_RGT_0 as Hpi. unfold math_atan2.
  destruct (Rlt_dec 0 x) as [Hx|Hx].
  { pose proof (atan_bound (y / x)). lra. }
  destruct (Rlt_dec x 0) as [Hx'|Hx'].
  - assert (Hinv : / x < 0) by (apply Rinv_lt_0_compat, Hx').
    pose proof (atan_bound (y / x)) as Hb.
    destruct (Rle_dec 0 y) as [Hy|Hy].
    + assert (y / x <= 0) by (unfold Rdiv; nra).
      pose proof (atan_nonpos _ H). lra.
    + assert (0 < y / x) by (unfold Rdiv; nra).
      pose proof (atan_pos _ H). lra.
  - destruct (Rlt_dec 0 y); [lra|]. destruct (Rlt_dec y 0); lra.
Qed.

Lemma div_by_positive_bounds a lo hi d :
  0 < d -> lo * d < a <= hi * d -> lo < a / d <= hi.
Proof.
  intros Hd [Hlo Hhi].
  assert (Hq : a = (a / d) * d) by (field; lra).
  set (q := a / d) in *. clearbody q. subst a. split; nra.
Qed.

Lemma div_by_positive_bounds_le a lo hi d :
  0 < d -> lo * d <= a <= hi * d -> lo <= a / d <= hi.
Proof.
  intros Hd [Hlo Hhi].
  assert (Hq : a = (a / d) * d) by (field; lra).
  set (q := a / d) in *. clearbody q. subst a. split; nra.
Qed.

Lemma sphere_uv_range p :
  0 < fst (sphere_uv p) <= 1 /\ 0 <= snd (sphere_uv p) <= 1.
Proof.
  pose proof PI_RGT_0 as Hpi. destruct p as [[x y] z].
  unfold sphere_uv, math_pi. cbn [fst snd].
  set (L := sqrt (norm2 (x, y, z))).
  pose proof (math_atan2_bound (z / L) (x / L)) as Ha.
  pose proof (asin_bound (y / L)) as Hs.
  assert (Hu : - (1 / 2) < math_atan2 (z / L) (x / L) / (2 * PI) <= 1 / 2)
    by (apply div_by_positive_bounds; lra).
  assert (Hv : - (1 / 2) <= asin (y / L) / PI <= 1 / 2)
    by (apply div_by_positive_bounds_le; lra).
  lra.
Qed.

Lemma in_float_range_not_origin p : in_float_range p -> p <> origin.
Proof.
  destruct p as [[x y] z]. intros [_ Hlow] Heq. unfold origin in Heq.
  injection Heq as -> -> ->. rewrite Rabs_R0 in Hlow. lra.
Qed.

(** X2: at a point none of whose coordinates exceeds 1e150 in absolute
    value and one of whose coordinates reaches 1e-150 (so that the squares
    neither overflow nor all underflow on doubles), [cubeToSphereUV]
    returns, and the pair it returns lies in the unit square:
    0 <= u <= 1 and 0 <= v <= 1. *)
Theorem cubeToSphereUV_unit_square (p : vec3) :
  in_float_range p ->
  exists u v,
    cubeToSphereUV p = inr (u, v) /\ 0 <= u <= 1 /\ 0 <= v <= 1.
Proof.
  intros Hrange. pose proof (in_float_range_not_origin p Hrange) as Hp.
  exists (fst (sphere_uv p)), (snd (sphere_uv p)).
  rewrite (cubeToSphereUV_positive_norm p (sqrt_norm2_pos p Hp)).
  split; [rewrite <- surjective_pairing; reflexivity|].
  pose proof (sphere_uv_range p). lra.
Qed.

Lemma cubeToSphereUV_unit_square_witness :
  exists u v,
    cubeToSphereUV (0, 1, 0) = inr (u, v) /\ 0 <= u <= 1 /\ 0 <= v <= 1.
Proof.
  apply (cubeToSphereUV_unit_square (0, 1, 0)).
  unfold in_float_range, bounded. rewrite Rabs_R0, Rabs_R1.
  split; [repeat split; lra|]. right. left. lra.
Defined.

Lemma lerp3D_start a b : lerp3D a b 0 = a.
Proof.
  destruct a as [[a0 a1] a2], b as [[b0 b1] b2]. unfold lerp3D.
  f_equal; [f_equal|]; ring.
Qed.

Lemma lerp3D_end a b : lerp3D a b 1 = b.
Proof.
  destruct a as [[a0 a1] a2], b as [[b0 b1] b2]. unfold lerp3D.
  f_equal; [f_equal|]; ring.
Qed.

Lemma zero_over sub : INR 0 / INR sub = 0.
Proof. cbn [INR]. unfold Rdiv. apply Rmult_0_l. Qed.

Lemma all_over sub : sub <> 0%nat -> INR sub / INR sub = 1.
Proof. intros H. field. apply not_0_INR, H. Qed.

Lemma grid_point_corners v0 v1 v2 v3 :
  grid_point v0 v1 v2 v3 0 0 = v0 /\ grid_point v0 v1 v2 v3 1 0 = v1 /\
  grid_point v0 v1 v2 v3 1 1 = v2 /\ grid_point v0 v1 v2 v3 0 1 = v3.
Proof.
  unfold grid_point. rewrite !lerp3D_start, !lerp3D_end. repeat split.
Qed.

(** X3: for a tessellation factor [sub >= 1] and each of the six quads of
    the [faces] table, the grid of [drawFaceSpherical] spans the quad: at
    the first and last values of the loop parameters ([0 / sub] and
    [sub / sub]) the interpolated points are the quad's corners v0, v1,
    v2, v3. *)
Theorem grid_corners (sub : nat) :
  sub <> 0%nat ->
  Forall (fun item =>
            exists v0 v1 v2 v3,
              quad_of vertices (fst (snd item)) = Some (v0, v1, v2, v3) /\
              grid_point v0 v1 v2 v3 (INR 0 / INR sub) (INR 0 / INR sub) = v0 /\
              grid_point v0 v1 v2 v3 (INR sub / INR sub) (INR 0 / INR sub) = v1 /\
              grid_point v0 v1 v2 v3 (INR sub / INR sub) (INR sub / INR sub) = v2 /\
              grid_point v0 v1 v2 v3 (INR 0 / INR sub) (INR sub / INR sub) = v3)
         faces.
Proof.
  intros Hsub. eapply Forall_impl; [apply faces_on_cube|].
  intros item (v0 & v1 & v2 & v3 & Hquad & _).
  exists v0, v1, v2, v3. split; [exact Hquad|].
  rewrite zero_over, (all_over sub Hsub). apply grid_point_corners.
Qed.

Lemma grid_corners_witness :
  Forall (fun item =>
            exists v0 v1 v2 v3,
              quad_of vertices (fst (snd item)) = Some (v0, v1, v2, v3) /\
              grid_point v0 v1 v2 v3 (INR 0 / INR 2) (INR 0 / INR 2) = v0 /\
              grid_point v0 v1 v2 v3 (INR 2 / INR 2) (INR 0 / INR 2) = v1 /\
              grid_point v0 v1 v2 v3 (INR 2 / INR 2) (INR 2 / INR 2) = v2 /\
              grid_point v0 v1 v2 v3 (INR 0 / INR 2) (INR 2 / INR 2) = v3)
         faces.
Proof. apply (grid_corners 2). discriminate. Defined.

End SphericalMapping.

(** ** Edge cases of the two draw paths *)

Section DrawEdges.

Local Open Scope R_scope.

Lemma quad_of_getitems vs verts_idx v0 v1 v2 v3 :
  quad_of vs verts_idx = Some (v0, v1, v2, v3) ->
  exists i0 i1 i2 i3 rest,
    verts_idx = i0 :: i1 :: i2 :: i3 :: rest /\
    getitem vs i0 = ret v0 /\ getitem vs i1 = ret v1 /\
    getitem vs i2 = ret v2 /\ getitem vs i3 = ret v3.
Proof.
  intros Hquad. unfold quad_of in Hquad.
  destruct verts_idx as [|i0 [|i1 [|i2 [|i3 rest]]]]; try discriminate.
  destruct (nth_error vs i0) as [w0|] eqn:E0; try discriminate.
  destruct (nth_error vs i1) as [w1|] eqn:E1; try discriminate.
  destruct (nth_error vs i2) as [w2|] eqn:E2; try discriminate.
  destruct (nth_error vs i3) as [w3|] eqn:E3; try discriminate.
  injection Hquad as -> -> -> ->.
  exists i0, i1, i2, i3, rest.
  repeat split; apply getitem_nth; assumption.
Qed.

(** The spherical draw once its four corners are fetched. *)
Lemma drawFaceSpherical_quad self vs verts_idx v0 v1 v2 v3 :
  quad_of vs verts_idx = Some (v0, v1, v2, v3) ->
  drawFaceSpherical self vs verts_idx =
  for_each (range (subdivide self)) (strip (subdivide self) v0 v1 v2 v3).
Proof.
  intros Hquad.
  destruct (quad_of_getitems _ _ _ _ _ _ Hquad)
    as (i0 & i1 & i2 & i3 & rest & -> & E0 & E1 & E2 & E3).
  unfold drawFaceSpherical, getitem at 1 3 5 7. cbn [nth_error ret lift gl_bind].
  rewrite E0, E1, E2, E3. cbn [ret lift gl_bind].
  destruct (for_each _ _); reflexivity.
Qed.

(** X4: a quad whose first corner is the origin, and whose other corners
    have coordinates of at most 1e300 in absolute value (so that no
    difference of two of them overflows a double), makes the spherical
    draw raise [ZeroDivisionError] at its very first grid point, for
    every tessellation factor [sub >= 1]; by then [glBegin] was issued
    and no [glEnd] follows. *)
Theorem drawFaceSpherical_origin_corner self vs verts_idx (v1 v2 v3 : vec3) :
  subdivide self <> 0%nat ->
  quad_of vs verts_idx = Some (origin, v1, v2, v3) ->
  bounded 1e300 v1 -> bounded 1e300 v2 -> bounded 1e300 v3 ->
  drawFaceSpherical self vs verts_idx =
  Raised [glBegin GL_TRIANGLE_STRIP] ZeroDivisionError.
Proof.
  intros Hsub Hquad _ _ _. rewrite (drawFaceSpherical_quad _ _ _ _ _ _ _ Hquad).
  destruct (subdivide self) as [|n] eqn:Esub; [congruence|].
  unfold range. cbn [seq for_each Nat.add].
  unfold strip at 1. rewrite !truediv_nonzero by (apply not_0_INR; discriminate).
  cbn [lift ret gl_bind emit]. unfold range. cbn [seq for_each Nat.add].
  unfold strip_column at 1. rewrite truediv_nonzero by (apply not_0_INR; discriminate).
  cbn [lift ret gl_bind].
  fold (grid_point origin v1 v2 v3 (INR 0 / INR (S n)) (INR 0 / INR (S n))).
  rewrite zero_over. destruct (grid_point_corners origin v1 v2 v3) as [-> _].
  rewrite cubeToSphereUV_origin_raise. reflexivity.
Qed.

Lemma drawFaceSpherical_origin_corner_witness :
  drawFaceSpherical init_preview
    [(0, 0, 0); (1, 0, 0); (1, 1, 0); (0, 1, 0)] [0; 1; 2; 3]%nat =
  Raised [glBegin GL_TRIANGLE_STRIP] ZeroDivisionError.
Proof.
  apply (drawFaceSpherical_origin_corner init_preview _ _ (1, 0, 0) (1, 1, 0) (0, 1, 0)).
  - cbn. discriminate.
  - reflexivity.
  - unfold bounded. rewrite Rabs_R0, Rabs_R1. repeat split; lra.
  - unfold bounded. rewrite Rabs_R0, Rabs_R1. repeat split; lra.
  - unfold bounded. rewrite Rabs_R0, Rabs_R1. repeat split; lra.
Defined.

(** X5: with tessellation factor 0 the spherical draw issues nothing and
    divides by nothing, whatever the quad. *)
Theorem drawFaceSpherical_sub0 self vs verts_idx (v0 v1 v2 v3 : vec3) :
  subdivide self = 0%nat ->
  quad_of vs verts_idx = Some (v0, v1, v2, v3) ->
  drawFaceSpherical self vs verts_idx = Done [] tt.
Proof.
  intros Hsub Hquad. rewrite (drawFaceSpherical_quad _ _ _ _ _ _ _ Hquad), Hsub.
  reflexivity.
Qed.

Lemma drawFaceSpherical_sub0_witness :
  drawFaceSpherical
    {| textures := ∅; rot_x := 20; rot_y := -30; last_pos := None;
       use_spherical_uv := true; subdivide := 0 |}
    [(0, 0, 0); (0, 0, 0); (0, 0, 0); (0, 0, 0)] [0; 1; 2; 3]%nat = Done [] tt.
Proof.
  apply (drawFaceSpherical_sub0 _ _ _ (0, 0, 0) (0, 0, 0) (0, 0, 0) (0, 0, 0));
    reflexivity.
Defined.

(** X6: with fewer than four vertex indices the spherical draw raises
    [IndexError] before it issues any command. *)
Theorem drawFaceSpherical_short_index_list self (vs : list vec3) (verts_idx : list nat) :
  (length verts_idx < 4)%nat ->
  drawFaceSpherical self vs verts_idx = Raised [] IndexError.
Proof.
  intros Hlen. unfold drawFaceSpherical.
  destruct verts_idx as [|i0 [|i1 [|i2 [|i3 rest]]]];
    cbn [length] in Hlen; try lia;
    unfold getitem; cbn [nth_error lift ret raise gl_bind];
    repeat (match goal with
            | |- context [nth_error vs ?i] => destruct (nth_error vs i)
            end; cbn [nth_error lift ret raise gl_bind]);
    reflexivity.
Qed.

Lemma drawFaceSpherical_short_index_list_witness :
  drawFaceSpherical init_preview vertices [0; 1; 2]%nat = Raised [] IndexError.
Proof. apply drawFaceSpherical_short_index_list. cbn. lia. Defined.

(** X7: a first vertex index past the end of the vertex list makes the
    flat draw raise [IndexError] after [glBegin] and the first texture
    coordinate were issued; no [glEnd] follows. *)
Theorem drawFaceFlat_index_out_of_range (vs : list vec3) (i0 : nat) (rest : list nat) :
  (length vs <= i0)%nat ->
  drawFaceFlat vs (i0 :: rest) =
  Raised [glBegin GL_QUADS; glTexCoord2f 0 0] IndexError.
Proof.
  intros Hlen. apply nth_error_None in Hlen.
  unfold drawFaceFlat. cbn [combine for_each].
  unfold getitem at 1. rewrite Hlen. reflexivity.
Qed.

Lemma drawFaceFlat_index_out_of_range_witness :
  drawFaceFlat vertices [8; 1; 2; 3]%nat =
  Raised [glBegin GL_QUADS; glTexCoord2f 0 0] IndexError.
Proof. apply drawFaceFlat_index_out_of_range. cbn. lia. Defined.

End DrawEdges.

(** ** The frame and the pointer events *)

Section Frame.

Local Open Scope Z_scope.

(** X8: for a width and a height in the range of a C [int], as Qt
    delivers them, [resizeGL] never raises, also for a height of 0, where
    it sets the viewport and the aspect ratio with height 1. *)
Theorem resizeGL_returns (w h : Z) :
  c_int w -> c_int h ->
  let h' := if h =? 0 then 1 else h in
  resizeGL w h =
  ([ glViewport 0 0 w h'; glMatrixMode GL_PROJECTION; glLoadIdentity;
     gluPerspective 60 (IZR w / IZR h') 0.1 100.0; glMatrixMode GL_MODELVIEW ],
   inr tt) /\
  h' <> 0.
Proof.
  intros _ _ h'. assert (Hh : h' <> 0).
  { subst h'. destruct (Z.eqb_spec h 0); lia. }
  split; [|exact Hh]. unfold resizeGL. fold h'.
  rewrite truediv_nonzero; [reflexivity|].
  intros H0. apply eq_IZR_R0 in H0. contradiction.
Qed.

Lemma resizeGL_returns_witness :
  resizeGL 800 0 =
  ([ glViewport 0 0 800 1; glMatrixMode GL_PROJECTION; glLoadIdentity;
     gluPerspective 60 (IZR 800 / IZR 1) 0.1 100.0; glMatrixMode GL_MODELVIEW ],
   inr tt) /\
  1 <> 0.
Proof. apply (resizeGL_returns 800 0); unfold c_int; lia. Defined.

Lemma handle_pitch self ev :
  -90 <= rot_x self <= 90 -> -90 <= rot_x (handle self ev) <= 90.
Proof.
  destruct ev as [pos|pos|]; cbn [handle].
  - intros H. exact H.
  - apply mouseMoveEvent_pitch.
  - intros H. exact H.
Qed.

Lemma handle_cache self ev :
  textures (handle self ev) = textures self /\
  use_spherical_uv (handle self ev) = use_spherical_uv self /\
  subdivide (handle self ev) = subdivide self.
Proof.
  destruct ev as [pos|pos|]; cbn [handle]; try (repeat split; reflexivity).
  unfold mouseMoveEvent. destruct (last_pos self) as [last|]; [|repeat split].
  destruct (QPoint_bool last); repeat split.
Qed.

Lemma run_events_kept (events : list mouse_event) (self : SkyboxPreview) :
  -90 <= rot_x self <= 90 ->
  -90 <= rot_x (run_events events self) <= 90 /\
  textures (run_events events self) = textures self /\
  use_spherical_uv (run_events events self) = use_spherical_uv self /\
  subdivide (run_events events self) = subdivide self.
Proof.
  unfold run_events. revert self.
  induction events as [|ev events IH]; intros self Hpitch.
  - cbn [fold_left]. repeat split; lia.
  - cbn [fold_left].
    destruct (IH (handle self ev) (handle_pitch self ev Hpitch))
      as (Hp & Ht & Hm & Hs).
    destruct (handle_cache self ev) as (Ht' & Hm' & Hs').
    split; [exact Hp|]. repeat split; congruence.
Qed.

(** X9: whatever presses, moves and releases arrive, in whatever order, a
    pitch in [-90, 90] stays in [-90, 90], and the texture cache, the
    render mode and the tessellation factor are not touched. *)
Theorem run_events_invariant (events : list mouse_event) (self : SkyboxPreview) :
  -90 <= rot_x self <= 90 ->
  -90 <= rot_x (run_events events self) <= 90 /\
  textures (run_events events self) = textures self /\
  use_spherical_uv (run_events events self) = use_spherical_uv self /\
  subdivide (run_events events self) = subdivide self.
Proof. apply run_events_kept. Qed.

Lemma run_events_invariant_witness :
  -90 <= rot_x (run_events [Press (mkQPoint 3 4); Move (mkQPoint 3 500); Release]
                  init_preview) <= 90 /\
  textures (run_events [Press (mkQPoint 3 4); Move (mkQPoint 3 500); Release]
              init_preview) = textures init_preview /\
  use_spherical_uv (run_events [Press (mkQPoint 3 4); Move (mkQPoint 3 500); Release]
                      init_preview) = use_spherical_uv init_preview /\
  subdivide (run_events [Press (mkQPoint 3 4); Move (mkQPoint 3 500); Release]
               init_preview) = subdivide init_preview.
Proof. apply run_events_invariant. cbn. lia. Defined.

Lemma paintGL_eq self :
  paintGL self =
  ([ glClear [GL_COLOR_BUFFER_BIT; GL_DEPTH_BUFFER_BIT];
     glLoadIdentity;
     glRotatef (rot_x self) 1 0 0;
     glRotatef (rot_y self) 0 1 0;
     glDepthMask false;
     glDisableCap GL_CULL_FACE ] ++
   map gl (skybox_out self) ++ [glEnableCap GL_CULL_FACE; glDepthMask true],
   inr tt).
Proof. unfold paintGL. rewrite drawSkybox_Done. reflexivity. Qed.

Lemma rotations_of_app out1 out2 :
  rotations_of (out1 ++ out2) = rotations_of out1 ++ rotations_of out2.
Proof.
  induction out1 as [|c out1 IH]; [reflexivity|].
  destruct c; cbn [app rotations_of]; rewrite IH; reflexivity.
Qed.

Lemma rotations_of_gl out : rotations_of (map gl out) = [].
Proof. induction out as [|c out IH]; [reflexivity|exact IH]. Qed.

(** X10: [paintGL] returns on every widget state, and whatever it drew in
    between, its last two commands switch face culling and depth writes
    back on. *)
Theorem paintGL_restores_state (self : SkyboxPreview) :
  exists body,
    paintGL self =
    (glClear [GL_COLOR_BUFFER_BIT; GL_DEPTH_BUFFER_BIT] :: glLoadIdentity ::
     glRotatef (rot_x self) 1 0 0 :: glRotatef (rot_y self) 0 1 0 ::
     glDepthMask false :: glDisableCap GL_CULL_FACE ::
     map gl body ++ [glEnableCap GL_CULL_FACE; glDepthMask true],
     inr tt) /\
    drawSkybox self = Done body tt.
Proof.
  exists (skybox_out self). split; [apply paintGL_eq|apply drawSkybox_Done].
Qed.

(** X11: after any run of pointer events from the initial widget, a frame
    rotates first about the x axis by a pitch in [-90, 90] and then about
    the y axis, and by nothing else. *)
Theorem paintGL_pitch_in_range (events : list mouse_event) :
  let self := run_events events init_preview in
  rotations_of (fst (paintGL self)) =
    [(rot_x self, (1, 0, 0)); (rot_y self, (0, 1, 0))] /\
  -90 <= rot_x self <= 90.
Proof.
  intros self. split.
  - rewrite paintGL_eq. cbn [fst app rotations_of].
    rewrite rotations_of_app, rotations_of_gl. reflexivity.
  - apply run_events_kept. cbn. lia.
Qed.

Lemma moves_after_release moves : forall self,
  last_pos self = None ->
  fold_left (fun s p => mouseMoveEvent p s) moves self = self.
Proof.
  induction moves as [|p moves IH]; intros self Hnone; [reflexivity|].
  cbn [fold_left].
  assert (Hstep : mouseMoveEvent p self = self)
    by (unfold mouseMoveEvent; rewrite Hnone; reflexivity).
  rewrite Hstep. apply IH, Hnone.
Qed.

(** X12: once the button is released, pointer moves change nothing: the
    widget after a release and any run of moves is the widget after the
    release. *)
Theorem moves_after_release_ignored (moves : list QPoint) (self : SkyboxPreview) :
  run_events (Release :: map Move moves) self = mouseReleaseEvent self /\
  rot_x (run_events (Release :: map Move moves) self) = rot_x self /\
  rot_y (run_events (Release :: map Move moves) self) = rot_y self.
Proof.
  assert (H : run_events (Release :: map Move moves) self = mouseReleaseEvent self).
  { unfold run_events. cbn [fold_left handle].
    rewrite <- (moves_after_release moves (mouseReleaseEvent self)) at 2
      by reflexivity.
    generalize (mouseReleaseEvent self).
    induction moves as [|p moves IH]; intros s; [reflexivity|].
    cbn [map fold_left handle]. apply IH. }
  rewrite H. repeat split.
Qed.

Lemma sum_dx_telescopes moves : forall prev,
  sum_dx prev moves = qx (List.last moves prev) - qx prev.
Proof.
  induction moves as [|p moves IH]; intros prev.
  - cbn. lia.
  - cbn [sum_dx]. rewrite IH.
    replace (List.last (p :: moves) prev) with (List.last moves p).
    + lia.
    + destruct moves as [|q moves]; [reflexivity|].
      cbn [List.last]. clear. revert q. induction moves as [|r moves IH]; intros q.
      * reflexivity.
      * cbn [List.last] in *. apply IH.
Qed.

(** X13: over a drag in which no sampled position (the press or a move) is
    the point (0, 0), the yaw changes by the horizontal distance between
    the press and the last position, whatever the path in between. *)
Theorem drag_yaw_net_displacement (press : QPoint) (moves : list QPoint)
    (self : SkyboxPreview) :
  Forall (fun p => QPoint_bool p = true) (press :: moves) ->
  rot_y (drag press moves self) =
  rot_y self + (qx (List.last moves press) - qx press).
Proof.
  intros Hall. unfold drag.
  rewrite (moves_yaw moves press); [|reflexivity|exact Hall].
  rewrite sum_dx_telescopes. reflexivity.
Qed.

Lemma drag_yaw_net_displacement_witness :
  rot_y (drag (mkQPoint 5 5) [mkQPoint 40 9; mkQPoint 2 7; mkQPoint 15 5] init_preview) =
  rot_y init_preview +
  (qx (List.last [mkQPoint 40 9; mkQPoint 2 7; mkQPoint 15 5] (mkQPoint 5 5))
   - qx (mkQPoint 5 5)).
Proof.
  apply drag_yaw_net_displacement.
  repeat (apply List.Forall_cons; [reflexivity|]). apply List.Forall_nil.
Defined.

End Frame.

(** ** The cache over several operations *)

Section CacheLife.

Implicit Types (self : SkyboxPreview) (live : gl_names) (face : string).

Lemma cached_survives_delete self live face other u :
  cache_ok self live -> other <> face -> get self other = Some u ->
  u ∈ after_delete self face live.
Proof.
  intros [Hlive Hinj] Hne Hu. destruct (Hlive other u Hu) as [Hin _].
  unfold after_delete. destruct (get self face) as [old|] eqn:Hold; [|exact Hin].
  apply elem_of_difference. split; [exact Hin|].
  rewrite elem_of_singleton. intros ->. apply Hne. exact (Hinj _ _ _ Hu Hold).
Qed.

Lemma loadTexture_cache_ok face (img : Image) self live :
  cache_ok self live ->
  cache_ok (loadTexture face img self live).1.1 (loadTexture face img self live).1.2.
Proof.
  intros Hok. pose proof Hok as [Hlive Hinj].
  rewrite loadTexture_eq. cbn zeta. cbn [fst snd].
  set (t := gen_name (after_delete self face live)).
  assert (Hfresh : t ∉ after_delete self face live) by apply gen_name_fresh.
  assert (Hget : forall f u,
             get (set_textures (<[face:=t]> (textures self)) self) f = Some u ->
             (f = face /\ u = t) \/ (f <> face /\ get self f = Some u)).
  { intros f u. unfold get, set_textures. cbn [textures].
    rewrite lookup_insert. destruct (decide (face = f)) as [->|Hne].
    - intros [= <-]. left. split; reflexivity.
    - intros Hu. right. split; [congruence|exact Hu]. }
  split.
  - intros f u Hu. destruct (Hget f u Hu) as [[-> ->]|[Hne Hold]].
    + split; [set_solver|apply gen_name_nonzero].
    + split; [|exact (proj2 (Hlive f u Hold))].
      apply elem_of_union. right.
      exact (cached_survives_delete self live face f u Hok Hne Hold).
  - intros f1 f2 u H1 H2.
    pose proof (Hget f1 u H1) as C1. pose proof (Hget f2 u H2) as C2.
    destruct C1 as [[E1 Eu1]|[Hne1 Hold1]]; destruct C2 as [[E2 Eu2]|[Hne2 Hold2]].
    + congruence.
    + exfalso. apply Hfresh. rewrite <- Eu1.
      exact (cached_survives_delete self live face f2 u Hok Hne2 Hold2).
    + exfalso. apply Hfresh. rewrite <- Eu2.
      exact (cached_survives_delete self live face f1 u Hok Hne1 Hold1).
    + exact (Hinj _ _ _ Hold1 Hold2).
Qed.

(** X14: [loadTexture] keeps the cache consistent with the context: if
    every cached name is a non-zero name in use and no two faces share a
    name, the same holds after the call, so that deleting a face's old
    texture never takes away the texture of another face. *)
Theorem loadTexture_keeps_cache_ok face (img : Image) self live :
  cache_ok self live ->
  cache_ok (loadTexture face img self live).1.1 (loadTexture face img self live).1.2.
Proof. apply loadTexture_cache_ok. Qed.

Lemma cache_ok_init : cache_ok init_preview ∅.
Proof.
  split.
  - intros face t H. unfold get in H. cbn [textures init_preview] in H.
    rewrite lookup_empty in H. discriminate H.
  - intros f1 f2 t H. unfold get in H. cbn [textures init_preview] in H.
    rewrite lookup_empty in H. discriminate H.
Qed.

Lemma loadTexture_keeps_cache_ok_witness :
  cache_ok (loadTexture "ft" empty_image init_preview ∅).1.1
           (loadTexture "ft" empty_image init_preview ∅).1.2.
Proof. apply loadTexture_keeps_cache_ok. exact cache_ok_init. Defined.

Lemma bound_name_nonzero t : t <> 0%N -> bound_name (Some t) = t.
Proof.
  intros H. unfold bound_name. destruct (N.eqb_spec t 0); [contradiction|reflexivity].
Qed.

Lemma frame_binds self :
  bind_sequence (issued (drawSkybox self)) =
  map (fun f => bound_name (get self f)) ["ft"; "bk"; "rt"; "lf"; "up"; "dn"]%string.
Proof. rewrite drawSkybox_Done. cbn [issued]. apply bind_sequence_skybox_out. Qed.

Lemma frame_binds_after_load face (img : Image) self live :
  bind_sequence (issued (drawSkybox (loadTexture face img self live).1.1)) =
  map (fun f => if decide (f = face)
                then gen_name (after_delete self face live)
                else bound_name (get self f))
      ["ft"; "bk"; "rt"; "lf"; "up"; "dn"]%string.
Proof.
  rewrite frame_binds, loadTexture_eq. cbn zeta. cbn [fst snd].
  apply map_ext. intros f. unfold get at 1, set_textures. cbn [textures].
  rewrite lookup_insert.
  destruct (decide (face = f)) as [->|Hne].
  - rewrite decide_True by reflexivity. apply bound_name_nonzero, gen_name_nonzero.
  - rewrite decide_False by congruence. reflexivity.
Qed.

(** X15: after [loadTexture] for a face, the next frame binds the new,
    non-zero texture name in that face's slot and, in every other slot,
    what it bound before. *)
Theorem frame_after_loadTexture face (img : Image) self live :
  exists t,
    get (loadTexture face img self live).1.1 face = Some t /\
    t <> 0%N /\
    bind_sequence (issued (drawSkybox (loadTexture face img self live).1.1)) =
    map (fun f => if decide (f = face) then t else bound_name (get self f))
        ["ft"; "bk"; "rt"; "lf"; "up"; "dn"]%string.
Proof.
  exists (gen_name (after_delete self face live)).
  split; [|split; [apply gen_name_nonzero|apply frame_binds_after_load]].
  rewrite loadTexture_eq. cbn zeta. cbn [fst snd].
  unfold get, set_textures. cbn [textures]. apply lookup_insert_eq.
Qed.

(** X16: a texture loaded under a key that is not a face of the [faces]
    table (as 'stretch' is) is never bound: the frames before and after
    the load bind the same names. *)
Theorem loadTexture_unknown_key_not_drawn key (img : Image) self live :
  key ∉ map fst faces ->
  bind_sequence (issued (drawSkybox (loadTexture key img self live).1.1)) =
  bind_sequence (issued (drawSkybox self)).
Proof.
  intros Hkey. rewrite frame_binds_after_load, frame_binds.
  apply map_ext_in. intros f Hf.
  rewrite decide_False; [reflexivity|].
  intros ->. apply Hkey, list_elem_of_In. exact Hf.
Qed.

Lemma loadTexture_unknown_key_not_drawn_witness :
  bind_sequence
    (issued (drawSkybox (loadTexture "stretch" empty_image numbered_preview ∅).1.1)) =
  bind_sequence (issued (drawSkybox numbered_preview)).
Proof.
  apply loadTexture_unknown_key_not_drawn.
  intros H. apply list_elem_of_In in H. cbn in H.
  repeat (destruct H as [H|H]; [discriminate H|]). exact H.
Defined.

(** X17: in stretch mode the preview stays untextured.  After a click on
    the stretch button and the load of the stretch image (under the key
    'stretch', as [browseStretchImage] does), a frame is drawn in
    spherical mode and binds texture 0 for each of the six faces. *)
Theorem stretch_mode_binds_no_texture (g : SkyboxGenerator) (img : Image) live :
  rows_built g ->
  exists g',
    click_radio false g = inr g' /\
    let p := (loadTexture "stretch" img (preview g') live).1.1 in
    use_spherical_uv p = true /\
    is_Some (get p "stretch") /\
    bind_sequence (issued (drawSkybox p)) = [0; 0; 0; 0; 0; 0]%N.
Proof.
  intros Hrows.
  destruct (click_radio_clears false g Hrows) as (g' & Hrun & Hempty & Hmode).
  exists g'. split; [exact Hrun|]. intros p. subst p.
  split; [|split].
  - rewrite loadTexture_eq. cbn zeta. cbn [fst snd]. exact Hmode.
  - rewrite loadTexture_eq. cbn zeta. cbn [fst snd].
    unfold get, set_textures. cbn [textures]. rewrite lookup_insert_eq. eexists; reflexivity.
  - rewrite frame_binds_after_load. unfold get. rewrite Hempty.
    cbn [map]. rewrite !lookup_empty. cbn [bound_name].
    repeat (rewrite decide_False by discriminate). reflexivity.
Qed.

Lemma stretch_mode_binds_no_texture_witness :
  exists g',
    click_radio false loaded_window = inr g' /\
    let p := (loadTexture "stretch" empty_image (preview g') ∅).1.1 in
    use_spherical_uv p = true /\
    is_Some (get p "stretch") /\
    bind_sequence (issued (drawSkybox p)) = [0; 0; 0; 0; 0; 0]%N.
Proof.
  apply (stretch_mode_binds_no_texture loaded_window empty_image ∅).
  exact loaded_window_rows_built.
Defined.

Lemma deleted_of_app out1 out2 :
  deleted_of (out1 ++ out2) = deleted_of out1 ++ deleted_of out2.
Proof.
  induction out1 as [|c out1 IH]; [reflexivity|].
  destruct c; cbn [app deleted_of]; rewrite IH; try reflexivity.
  rewrite app_assoc. reflexivity.
Qed.

Lemma load_switch_load (six : bool) (g : SkyboxGenerator)
    face (img1 img2 : Image) live :
  rows_built g ->
  let first := loadTexture face img1 (preview g) live in
  exists g' t1,
    click_radio six (set_preview first.1.1 g) = inr g' /\
    get first.1.1 face = Some t1 /\
    let second := loadTexture face img2 (preview g') first.1.2 in
    exists t2,
      get second.1.1 face = Some t2 /\
      t1 <> t2 /\ t1 ∈ second.1.2 /\ t2 ∈ second.1.2 /\
      deleted_of second.2 = [] /\
      base.size second.1.2 = S (base.size first.1.2).
Proof.
  intros Hrows first.
  destruct (click_radio_clears six (set_preview first.1.1 g) Hrows)
    as (g' & Hrun & Hempty & _).
  subst first. rewrite (loadTexture_eq face img1). cbn zeta. cbn [fst snd].
  rewrite (loadTexture_eq face img1) in Hrun. cbn zeta in Hrun. cbn [fst snd] in Hrun.
  set (t1 := gen_name (after_delete (preview g) face live)) in *.
  set (live1 := {[t1]} ∪ after_delete (preview g) face live).
  exists g', t1. split; [exact Hrun|].
  split; [unfold get, set_textures; cbn [textures]; apply lookup_insert_eq|].
  assert (Hnone : get (preview g') face = None)
    by (unfold get; rewrite Hempty; apply lookup_empty).
  assert (Hdel : after_delete (preview g') face live1 = live1)
    by (unfold after_delete; rewrite Hnone; reflexivity).
  assert (Hcmd : delete_cmds (preview g') face = [])
    by (unfold delete_cmds; rewrite Hnone; reflexivity).
  cbn zeta. rewrite loadTexture_eq. cbn zeta. cbn [fst snd]. rewrite !Hdel, Hcmd.
  set (t2 := gen_name live1).
  assert (Hfresh : t2 ∉ live1) by apply gen_name_fresh.
  assert (Hin1 : t1 ∈ live1) by (unfold live1; set_solver).
  exists t2.
  split; [unfold get, set_textures; cbn [textures]; apply lookup_insert_eq|].
  split; [intros E; apply Hfresh; rewrite <- E; exact Hin1|].
  split; [set_solver|]. split; [set_solver|]. split; [reflexivity|].
  rewrite size_union by set_solver. rewrite size_singleton. reflexivity.
Qed.

(** X18: a mode switch drops the cached names without deleting the
    textures.  If a face is loaded, the mode switched and the face loaded
    again, the second load deletes nothing, the first texture is still in
    use next to the second, and the context holds one texture more. *)
Theorem mode_switch_leaks_texture (six : bool) (g : SkyboxGenerator)
    face (img1 img2 : Image) live :
  rows_built g ->
  let first := loadTexture face img1 (preview g) live in
  exists g' t1,
    click_radio six (set_preview first.1.1 g) = inr g' /\
    get first.1.1 face = Some t1 /\
    let second := loadTexture face img2 (preview g') first.1.2 in
    exists t2,
      get second.1.1 face = Some t2 /\
      t1 <> t2 /\ t1 ∈ second.1.2 /\ t2 ∈ second.1.2 /\
      deleted_of second.2 = [] /\
      base.size second.1.2 = S (base.size first.1.2).
Proof. apply load_switch_load. Qed.

(** C6 on the code: load face ft on the initial window, click the
    six-image radio button (which runs [updateMode] and leaves the face
    inputs enabled), load face ft again, as a rotate or a flip of the
    face does.  The two loads are two calls of [loadTexture] for the one
    face, yet the second deletes nothing: both textures are in use
    afterwards, two where the claim has one, and only the second is in
    the cache. *)
Theorem loadTexture_twice_across_mode_switch :
  let first := loadTexture "ft" two_pixel_image (preview built_window) ∅ in
  exists g' t1,
    click_radio true (set_preview first.1.1 built_window) = inr g' /\
    get first.1.1 "ft" = Some t1 /\
    base.size first.1.2 = 1%nat /\
    let second := loadTexture "ft" two_pixel_image (preview g') first.1.2 in
    exists t2,
      get second.1.1 "ft" = Some t2 /\
      t1 <> t2 /\ t1 ∈ second.1.2 /\ t2 ∈ second.1.2 /\
      deleted_of second.2 = [] /\
      base.size second.1.2 = 2%nat.
Proof.
  intros first.
  destruct (load_switch_load true built_window "ft" two_pixel_image two_pixel_image ∅
              loaded_window_rows_built)
    as (g' & t1 & Hrun & Hget1 & t2 & Hget2 & Hne & Hin1 & Hin2 & Hdel & Hsize).
  fold first in Hrun, Hget1, Hget2, Hne, Hin1, Hin2, Hdel, Hsize.
  assert (Hone : base.size first.1.2 = 1%nat) by (vm_compute; reflexivity).
  exists g', t1. split; [exact Hrun|]. split; [exact Hget1|]. split; [exact Hone|].
  exists t2. split; [exact Hget2|]. split; [exact Hne|]. split; [exact Hin1|].
  split; [exact Hin2|]. split; [exact Hdel|]. rewrite Hsize, Hone. reflexivity.
Qed.

Lemma mode_switch_leaks_texture_witness :
  let first := loadTexture "ft" empty_image (preview loaded_window) ∅ in
  exists g' t1,
    click_radio false (set_preview first.1.1 loaded_window) = inr g' /\
    get first.1.1 "ft" = Some t1 /\
    let second := loadTexture "ft" empty_image (preview g') first.1.2 in
    exists t2,
      get second.1.1 "ft" = Some t2 /\
      t1 <> t2 /\ t1 ∈ second.1.2 /\ t2 ∈ second.1.2 /\
      deleted_of second.2 = [] /\
      base.size second.1.2 = S (base.size first.1.2).
Proof.
  apply (mode_switch_leaks_texture false loaded_window "ft" empty_image empty_image ∅).
  exact loaded_window_rows_built.
Defined.

Lemma row_bytes_length (rows : list (list (Byte.byte * Byte.byte * Byte.byte * Byte.byte))) w :
  Forall (fun row => length row = w) rows ->
  length (concat (map (flat_map (fun '(r, g, b, a) => [r; g; b; a])) rows)) =
  (4 * w * length rows)%nat.
Proof.
  induction 1 as [|row rows Hrow _ IH]; [cbn; lia|].
  cbn [map concat length]. rewrite length_app, IH.
  assert (Hlen : length (flat_map (fun '(r, g, b, a) => [r; g; b; a]) row)
                 = (4 * length row)%nat).
  { clear. induction row as [|[[[r g] b] a] row IH]; [reflexivity|].
    cbn [flat_map app length]. rewrite IH. lia. }
  rewrite Hlen, Hrow. lia.
Qed.

(** X19: for a bitmap whose rows agree with its size, [loadTexture] hands
    [glTexImage2D] the bitmap's width and height together with a buffer of
    exactly 4 * width * height bytes, and makes no other upload. *)
Theorem loadTexture_upload_size face (img : Image) self live :
  image_ok img ->
  exists data,
    uploads_of (loadTexture face img self live).2 =
      [(fst (img_size img), snd (img_size img), data)] /\
    length data =
      (4 * N.to_nat (fst (img_size img)) * N.to_nat (snd (img_size img)))%nat.
Proof.
  intros [Hrows Hcols]. exists (tobytes_raw_RGBA_flipped img). split.
  - rewrite loadTexture_eq. cbn zeta. cbn [snd]. unfold delete_cmds.
    destruct (get self face); reflexivity.
  - unfold tobytes_raw_RGBA_flipped.
    rewrite (row_bytes_length _ (N.to_nat (fst (img_size img)))).
    + rewrite length_rev, Hrows. reflexivity.
    + apply Forall_rev, Hcols.
Qed.

Lemma loadTexture_upload_size_witness :
  exists data,
    uploads_of (loadTexture "up" two_pixel_image init_preview ∅).2 =
      [(fst (img_size two_pixel_image), snd (img_size two_pixel_image), data)] /\
    length data =
      (4 * N.to_nat (fst (img_size two_pixel_image))
         * N.to_nat (snd (img_size two_pixel_image)))%nat.
Proof.
  apply loadTexture_upload_size. split.
  - reflexivity.
  - cbn. apply List.Forall_cons; [reflexivity|apply List.Forall_nil].
Defined.

End CacheLife.

(** ** The widgets over a mode switch *)

Section ModeWidgets.

Lemma set_faces_enabled_lookup names six : forall inputs inputs',
  set_faces_enabled names six inputs = inr inputs' ->
  forall k,
    inputs' !! k = if decide (k ∈ names) then Some (row_enabled six) else inputs !! k.
Proof.
  induction names as [|face names IH]; intros inputs inputs' Hrun k.
  - cbn [set_faces_enabled] in Hrun. injection Hrun as <-.
    rewrite decide_False by apply not_elem_of_nil. reflexivity.
  - cbn [set_faces_enabled] in Hrun.
    destruct (inputs !! face) as [row|] eqn:Hrow; [|discriminate Hrun].
    rewrite (IH _ _ Hrun k).
    destruct (decide (k ∈ names)) as [Hin|Hnotin].
    + rewrite decide_True by (apply elem_of_cons; right; exact Hin). reflexivity.
    + rewrite lookup_insert. destruct (decide (face = k)) as [->|Hne].
      * rewrite decide_True by (apply elem_of_cons; left; reflexivity). reflexivity.
      * rewrite decide_False; [reflexivity|].
        rewrite elem_of_cons. intros [->|Hin]; [apply Hne; reflexivity|exact (Hnotin Hin)].
Qed.

Lemma set_faces_enabled_error names six : forall inputs e,
  set_faces_enabled names six inputs = inl e -> e = KeyError.
Proof.
  induction names as [|face names IH]; intros inputs e Hrun.
  - discriminate Hrun.
  - cbn [set_faces_enabled] in Hrun. destruct (inputs !! face).
    + exact (IH _ _ Hrun).
    + injection Hrun as <-. reflexivity.
Qed.

Lemma set_faces_enabled_rows names six : forall inputs inputs',
  set_faces_enabled names six inputs = inr inputs' ->
  Forall (fun face => is_Some (inputs !! face)) names.
Proof.
  induction names as [|face names IH]; intros inputs inputs' Hrun.
  - apply List.Forall_nil.
  - cbn [set_faces_enabled] in Hrun.
    destruct (inputs !! face) as [row|] eqn:Hrow; [|discriminate Hrun].
    apply List.Forall_cons; [rewrite Hrow; eexists; reflexivity|].
    eapply Forall_impl; [exact (IH _ _ Hrun)|].
    intros other Hother. cbn beta in Hother.
    rewrite lookup_insert_is_Some in Hother.
    destruct Hother as [<-|[_ H]]; [rewrite Hrow; eexists; reflexivity|exact H].
Qed.

Lemma set_faces_enabled_again names six : forall inputs,
  Forall (fun face => inputs !! face = Some (row_enabled six)) names ->
  set_faces_enabled names six inputs = inr inputs.
Proof.
  induction names as [|face names IH]; intros inputs Hall; [reflexivity|].
  apply Forall_cons in Hall as [Hrow Hrest].
  cbn [set_faces_enabled]. rewrite Hrow.
  fold (row_enabled six). rewrite (insert_id _ _ _ Hrow). apply IH, Hrest.
Qed.

Lemma click_radio_result six (g : SkyboxGenerator) inputs' :
  set_faces_enabled FACE_NAMES six (face_inputs g) = inr inputs' ->
  click_radio six g =
  inr {| radio_six := six;
         face_inputs := inputs';
         stretch_path_edit := negb six;
         btn_browse_stretch := negb six;
         stretch_rotate_btn := negb six;
         stretch_flip_btn := negb six;
         preview := set_use_spherical_uv (negb six) (set_textures ∅ (preview g)) |}.
Proof.
  intros Hrun. unfold click_radio, updateMode.
  cbn [radio_six face_inputs preview]. rewrite Hrun. reflexivity.
Qed.

(** X20: a click on a radio button enables exactly one group of inputs: in
    every face row all five widgets get the flag [six], the four widgets
    of the stretch row get its negation, widgets under other keys are not
    touched, and every face row is still there for the next click. *)
Theorem click_radio_widgets (six : bool) (g : SkyboxGenerator) :
  rows_built g ->
  exists g',
    click_radio six g = inr g' /\
    radio_six g' = six /\
    Forall (fun face => face_inputs g' !! face = Some (row_enabled six)) FACE_NAMES /\
    (forall k, k ∉ FACE_NAMES -> face_inputs g' !! k = face_inputs g !! k) /\
    stretch_path_edit g' = negb six /\ btn_browse_stretch g' = negb six /\
    stretch_rotate_btn g' = negb six /\ stretch_flip_btn g' = negb six /\
    rows_built g'.
Proof.
  intros Hrows.
  destruct (set_faces_enabled_ok FACE_NAMES six _ Hrows) as [inputs' Hrun].
  pose proof (set_faces_enabled_lookup _ _ _ _ Hrun) as Hlook.
  eexists. split; [apply (click_radio_result _ _ _ Hrun)|].
  cbn [radio_six face_inputs stretch_path_edit btn_browse_stretch
       stretch_rotate_btn stretch_flip_btn].
  assert (Hfaces : Forall (fun face => inputs' !! face = Some (row_enabled six)) FACE_NAMES).
  { apply Forall_forall. intros face Hin. rewrite Hlook, decide_True by exact Hin.
    reflexivity. }
  split; [reflexivity|]. split; [exact Hfaces|].
  split; [intros k Hk; rewrite Hlook, decide_False by exact Hk; reflexivity|].
  do 4 (split; [reflexivity|]).
  unfold rows_built. cbn [face_inputs].
  eapply Forall_impl; [exact Hfaces|]. intros face ->. eexists; reflexivity.
Qed.

Lemma click_radio_widgets_witness :
  exists g',
    click_radio false built_window = inr g' /\
    radio_six g' = false /\
    Forall (fun face => face_inputs g' !! face = Some (row_enabled false)) FACE_NAMES /\
    (forall k, k ∉ FACE_NAMES -> face_inputs g' !! k = face_inputs built_window !! k) /\
    stretch_path_edit g' = negb false /\ btn_browse_stretch g' = negb false /\
    stretch_rotate_btn g' = negb false /\ stretch_flip_btn g' = negb false /\
    rows_built g'.
Proof.
  apply (click_radio_widgets false built_window).
  exact loaded_window_rows_built.
Defined.

(** X21: [updateMode] raises exactly when the row of some face is
    missing from [face_inputs], and what it raises is [KeyError]. *)
Theorem click_radio_raises_iff_row_missing (six : bool) (g : SkyboxGenerator) (e : exn) :
  click_radio six g = inl e <-> ~ rows_built g /\ e = KeyError.
Proof.
  unfold click_radio, updateMode. cbn [radio_six face_inputs preview].
  destruct (set_faces_enabled FACE_NAMES six (face_inputs g)) as [e'|inputs'] eqn:Hrun;
    cbn [bind ret].
  - pose proof (set_faces_enabled_error _ _ _ _ Hrun) as ->. split.
    + intros [= <-]. split; [|reflexivity].
      intros Hrows. destruct (set_faces_enabled_ok FACE_NAMES six _ Hrows) as [i Hi].
      rewrite Hi in Hrun. discriminate Hrun.
    + intros [_ ->]. reflexivity.
  - split; [discriminate|].
    intros [Hnot _]. exfalso. apply Hnot.
    exact (set_faces_enabled_rows _ _ _ _ Hrun).
Qed.

(** The window without the row of dn: the click raises. *)
Lemma click_radio_missing_row : click_radio true window_without_dn = inl KeyError.
Proof. vm_compute. reflexivity. Qed.

(** X22: a second click on the same radio button changes nothing. *)
Theorem click_radio_idempotent (six : bool) (g g' : SkyboxGenerator) :
  click_radio six g = inr g' -> click_radio six g' = inr g'.
Proof.
  intros Hfirst. unfold click_radio, updateMode in Hfirst.
  cbn [radio_six face_inputs preview] in Hfirst.
  destruct (set_faces_enabled FACE_NAMES six (face_inputs g)) as [e|inputs'] eqn:Hrun;
    [discriminate Hfirst|].
  cbn [bind ret] in Hfirst. injection Hfirst as <-.
  pose proof (set_faces_enabled_lookup _ _ _ _ Hrun) as Hlook.
  rewrite (click_radio_result six _ inputs'); [reflexivity|].
  cbn [face_inputs]. apply set_faces_enabled_again, Forall_forall.
  intros face Hin. rewrite Hlook, decide_True by exact Hin. reflexivity.
Qed.

Lemma click_radio_idempotent_witness :
  exists g',
    click_radio false loaded_window = inr g' /\ click_radio false g' = inr g'.
Proof.
  destruct (click_radio false loaded_window) as [e|g'] eqn:Hrun.
  - exfalso. vm_compute in Hrun. discriminate Hrun.
  - exists g'. split; [reflexivity|].
    apply (click_radio_idempotent false loaded_window g'). exact Hrun.
Defined.

End ModeWidgets.

(** ** The export *)

Section ExportFiles.

(** X23: [_swap_rb_channels] is its own inverse and keeps the size: the
    image saved under .tex, swapped once more, is the image saved as
    PNG. *)
Theorem swap_rb_channels_involutive (img : Image) :
  _swap_rb_channels (_swap_rb_channels img) = img /\
  img_size (_swap_rb_channels img) = img_size img /\
  length (img_rows (_swap_rb_channels img)) = length (img_rows img).
Proof.
  destruct img as [sz rows]. unfold _swap_rb_channels. cbn [img_size img_rows].
  split; [|split; [reflexivity|apply length_map]].
  f_equal. rewrite map_map. rewrite <- (map_id rows) at 2.
  apply map_ext. intros row. rewrite map_map. rewrite <- (map_id row) at 2.
  apply map_ext. intros [[[r g] b] a]. reflexivity.
Qed.

Lemma saves_of_app ev1 ev2 : saves_of (ev1 ++ ev2) = saves_of ev1 ++ saves_of ev2.
Proof.
  induction ev1 as [|e ev1 IH]; [reflexivity|].
  destruct e; cbn [app saves_of]; rewrite IH; reflexivity.
Qed.

Lemma export_six_finished names images out : 
  Forall (fun face => is_Some (images !! face)) names ->
  exists items,
    map fst items = names /\
    Forall (fun '(face, img) => images !! face = Some img) items /\
    export_six names images out =
      (flat_map (fun '(face, img) => export_face out face img) items, true).
Proof.
  induction names as [|face names IH]; intros Hall.
  - exists []. repeat split. apply List.Forall_nil.
  - apply Forall_cons in Hall as [[img Himg] Hrest].
    destruct (IH Hrest) as (items & Hnames & Hitems & Hrun).
    exists ((face, img) :: items). split; [cbn [map fst]; congruence|].
    split; [apply List.Forall_cons; assumption|].
    cbn [export_six flat_map]. rewrite Himg, Hrun. reflexivity.
Qed.

Lemma saves_of_export_faces out items :
  saves_of (flat_map (fun '(face, img) => export_face out face img) items) =
  files_of out items.
Proof.
  induction items as [|[face img] items IH]; [reflexivity|].
  cbn [flat_map files_of]. rewrite saves_of_app, IH. reflexivity.
Qed.

Lemma opening_saves title (folder_exists : bool) :
  saves_of ((if folder_exists then [ask_overwrite title; rmtree [title]] else []) ++
            [makedirs [title]]) = [].
Proof. destruct folder_exists; reflexivity. Qed.

(** X24: in the six-image mode, with a title, every face holding an image
    and the overwrite confirmed if it was asked for, [generateSkybox]
    writes twelve files, two per face in the order of [FACE_NAMES]:
    sky512_<face>.png with the face's image and sky512_<face>.tex with
    its channel-swapped image; then it reports success and empties the
    temp folder. *)
Theorem generateSkybox_six_complete (self : SkyboxGenerator) (imgs : Images)
    (title : string) (folder_exists reply_yes : bool) :
  title <> ""%string ->
  radio_six self = true ->
  Forall (fun face => is_Some (face_images imgs !! face)) FACE_NAMES ->
  (folder_exists = true -> reply_yes = true) ->
  exists items,
    map fst items = FACE_NAMES /\
    Forall (fun '(face, img) => face_images imgs !! face = Some img) items /\
    saves_of (generateSkybox self imgs title folder_exists reply_yes) =
      files_of [title] items /\
    exists before,
      generateSkybox self imgs title folder_exists reply_yes =
      before ++ [ info_done [title]; rmtree_ignore_errors temp_folder;
                  makedirs_exist_ok temp_folder ].
Proof.
  intros Htitle Hsix Hall Hconfirm.
  destruct (export_six_finished FACE_NAMES (face_images imgs) [title] Hall)
    as (items & Hnames & Hitems & Hrun).
  exists items. split; [exact Hnames|]. split; [exact Hitems|].
  unfold generateSkybox.
  destruct (String.eqb_spec title "") as [|_]; [contradiction|].
  assert (Hgo : folder_exists && negb reply_yes = false).
  { destruct folder_exists; [rewrite Hconfirm by reflexivity|]; reflexivity. }
  rewrite Hgo, Hsix, Hrun. split.
  - rewrite saves_of_app, opening_saves, saves_of_app, saves_of_export_faces.
    cbn [app saves_of]. apply app_nil_r.
  - eexists. rewrite app_assoc. reflexivity.
Qed.

Lemma six_images_all : Forall (fun face => is_Some (face_images six_images !! face)) FACE_NAMES.
Proof.
  unfold FACE_NAMES.
  repeat (apply List.Forall_cons; [vm_compute; eexists; reflexivity|]).
  apply List.Forall_nil.
Qed.

Lemma generateSkybox_six_complete_witness :
  exists items,
    map fst items = FACE_NAMES /\
    Forall (fun '(face, img) => face_images six_images !! face = Some img) items /\
    saves_of (generateSkybox six_window six_images "sky" true true) =
      files_of ["sky"%string] items /\
    exists before,
      generateSkybox six_window six_images "sky" true true =
      before ++ [ info_done ["sky"%string]; rmtree_ignore_errors temp_folder;
                  makedirs_exist_ok temp_folder ].
Proof.
  apply (generateSkybox_six_complete six_window six_images "sky" true true).
  - discriminate.
  - reflexivity.
  - unfold FACE_NAMES.
    repeat (apply List.Forall_cons; [vm_compute; eexists; reflexivity|]).
    apply List.Forall_nil.
  - reflexivity.
Defined.

Lemma export_six_missing names images out :
  ~ Forall (fun face => is_Some (images !! face)) names ->
  exists before_faces face after_faces,
    names = map fst before_faces ++ face :: after_faces /\
    Forall (fun '(f, img) => images !! f = Some img) before_faces /\
    images !! face = None /\
    export_six names images out =
      (flat_map (fun '(f, img) => export_face out f img) before_faces ++
       [warn_missing_face face], false).
Proof.
  induction names as [|face names IH]; intros Hnot.
  - exfalso. apply Hnot, List.Forall_nil.
  - destruct (images !! face) as [img|] eqn:Himg.
    + destruct IH as (bf & f & af & Hnames & Hbf & Hf & Hrun).
      { intros Hrest. apply Hnot, List.Forall_cons; [rewrite Himg; eexists; reflexivity|exact Hrest]. }
      exists ((face, img) :: bf), f, af.
      split; [cbn [map fst app]; congruence|].
      split; [apply List.Forall_cons; assumption|]. split; [exact Hf|].
      cbn [export_six flat_map]. rewrite Himg, Hrun. rewrite <- app_assoc. reflexivity.
    + exists [], face, names. repeat split; try assumption.
      * apply List.Forall_nil.
      * cbn [export_six]. rewrite Himg. reflexivity.
Qed.

(** X25: in the six-image mode, when a face holds no image and an existing
    output folder was confirmed for overwrite, [generateSkybox] removes
    the old folder, creates the new one, writes the files of the faces
    that come before the first missing one in [FACE_NAMES], warns about
    that face and stops: no success message, no cleanup of the temp
    folder, and the old export is gone. *)
Theorem generateSkybox_missing_face (self : SkyboxGenerator) (imgs : Images)
    (title : string) :
  title <> ""%string ->
  radio_six self = true ->
  ~ Forall (fun face => is_Some (face_images imgs !! face)) FACE_NAMES ->
  exists before_faces face after_faces,
    FACE_NAMES = map fst before_faces ++ face :: after_faces /\
    Forall (fun '(f, img) => face_images imgs !! f = Some img) before_faces /\
    face_images imgs !! face = None /\
    generateSkybox self imgs title true true =
      [ask_overwrite title; rmtree [title]; makedirs [title]] ++
      flat_map (fun '(f, img) => export_face [title] f img) before_faces ++
      [warn_missing_face face].
Proof.
  intros Htitle Hsix Hnot.
  destruct (export_six_missing FACE_NAMES (face_images imgs) [title] Hnot)
    as (bf & f & af & Hnames & Hbf & Hf & Hrun).
  exists bf, f, af. split; [exact Hnames|]. split; [exact Hbf|]. split; [exact Hf|].
  unfold generateSkybox.
  destruct (String.eqb_spec title "") as [|_]; [contradiction|].
  cbn [andb negb]. rewrite Hsix, Hrun. reflexivity.
Qed.

Lemma generateSkybox_missing_face_witness :
  exists before_faces face after_faces,
    FACE_NAMES = map fst before_faces ++ face :: after_faces /\
    Forall (fun '(f, img) => face_images two_images !! f = Some img) before_faces /\
    face_images two_images !! face = None /\
    generateSkybox six_window two_images "sky" true true =
      [ask_overwrite "sky"; rmtree ["sky"%string]; makedirs ["sky"%string]] ++
      flat_map (fun '(f, img) => export_face ["sky"%string] f img) before_faces ++
      [warn_missing_face face].
Proof.
  apply (generateSkybox_missing_face six_window two_images "sky").
  - discriminate.
  - reflexivity.
  - intros Hall. unfold FACE_NAMES in Hall.
    apply Forall_cons in Hall as [_ Hall]. apply Forall_cons in Hall as [_ Hall].
    apply Forall_cons in Hall as [[img Himg] _].
    vm_compute in Himg. discriminate Himg.
Defined.

Lemma export_six_no_rmtree names images out p :
  ~ In (rmtree p) (fst (export_six names images out)).
Proof.
  induction names as [|face names IH]; cbn [export_six]; [intros []|].
  destruct (images !! face) as [img|]; [|cbn; intros [H|[]]; discriminate H].
  destruct (export_six names images out) as [events finished]. cbn [fst] in *.
  intros H. apply in_app_or in H as [H|H]; [|exact (IH H)].
  cbn in H. destruct H as [H|[H|[]]]; discriminate H.
Qed.

Lemma export_faces_no_rmtree out img names p :
  ~ In (rmtree p) (flat_map (fun face => export_face out face img) names).
Proof.
  induction names as [|face names IH]; [intros []|].
  cbn [flat_map]. intros H. apply in_app_or in H as [H|H]; [|exact (IH H)].
  cbn in H. destruct H as [H|[H|[]]]; discriminate H.
Qed.

(** X26: [generateSkybox] removes a folder only when a title was entered,
    the output folder exists and the user answered Yes, and the folder it
    removes is then the output folder. *)
Theorem generateSkybox_rmtree_only_confirmed (self : SkyboxGenerator) (imgs : Images)
    (title : string) (folder_exists reply_yes : bool) (p : path) :
  In (rmtree p) (generateSkybox self imgs title folder_exists reply_yes) ->
  title <> ""%string /\ folder_exists = true /\ reply_yes = true /\ p = [title].
Proof.
  unfold generateSkybox.
  destruct (String.eqb_spec title "") as [->|Htitle].
  { cbn. intros [H|[]]. discriminate H. }
  destruct folder_exists, reply_yes; cbn [andb negb].
  - intros Hin. repeat split; try assumption.
    set (body := if radio_six self then _ else _) in Hin.
    assert (Hbody : ~ In (rmtree p) (fst body)).
    { subst body. destruct (radio_six self); [apply export_six_no_rmtree|].
      destruct (stretch_image imgs); [apply export_faces_no_rmtree|].
      cbn. intros [H|[]]. discriminate H. }
    destruct body as [saves finished]. cbn [fst] in Hbody.
    assert (Hcases : In (rmtree p) ([ask_overwrite title; rmtree [title]; makedirs [title]])
                     \/ In (rmtree p) saves
                     \/ In (rmtree p) [ info_done [title]; rmtree_ignore_errors temp_folder;
                                         makedirs_exist_ok temp_folder ]).
    { destruct finished; cbn [app] in Hin.
      - apply (in_app_or (_ :: _ :: _ :: nil)) in Hin as [H|H]; [left; exact H|].
        apply in_app_or in H as [H|H]; [right; left; exact H|right; right; exact H].
      - apply (in_app_or (_ :: _ :: _ :: nil)) in Hin as [H|H]; [left; exact H|].
        right; left; exact H. }
    destruct Hcases as [H|[H|H]].
    + cbn in H. destruct H as [H|[H|[H|[]]]]; try discriminate H.
      injection H as <-. reflexivity.
    + contradiction.
    + cbn in H. destruct H as [H|[H|[H|[]]]]; discriminate H.
  - cbn. intros [H|[]]. discriminate H.
  - intros Hin. exfalso.
    set (body := if radio_six self then _ else _) in Hin.
    assert (Hbody : ~ In (rmtree p) (fst body)).
    { subst body. destruct (radio_six self); [apply export_six_no_rmtree|].
      destruct (stretch_image imgs); [apply export_faces_no_rmtree|].
      cbn. intros [H|[]]. discriminate H. }
    destruct body as [saves finished]. cbn [fst] in Hbody.
    destruct finished; cbn [app] in Hin; destruct Hin as [H|Hin]; try discriminate H.
    + apply in_app_or in Hin as [H|H]; [contradiction|].
      cbn in H. destruct H as [H|[H|[H|[]]]]; discriminate H.
    + contradiction.
  - intros Hin. exfalso.
    set (body := if radio_six self then _ else _) in Hin.
    assert (Hbody : ~ In (rmtree p) (fst body)).
    { subst body. destruct (radio_six self); [apply export_six_no_rmtree|].
      destruct (stretch_image imgs); [apply export_faces_no_rmtree|].
      cbn. intros [H|[]]. discriminate H. }
    destruct body as [saves finished]. cbn [fst] in Hbody.
    destruct finished; cbn [app] in Hin; destruct Hin as [H|Hin]; try discriminate H.
    + apply in_app_or in Hin as [H|H]; [contradiction|].
      cbn in H. destruct H as [H|[H|[H|[]]]]; discriminate H.
    + contradiction.
Qed.

Lemma generateSkybox_rmtree_only_confirmed_witness :
  ("sky" <> "")%string /\ true = true /\ true = true /\ ["sky"%string] = ["sky"%string].
Proof.
  apply (generateSkybox_rmtree_only_confirmed six_window six_images "sky" true true
           ["sky"%string]).
  vm_compute. right. left. reflexivity.
Defined.

(** X27: in the stretch mode, with a title and a stretch image,
    [generateSkybox] writes the same image under all six faces: every
    sky512_<face>.png is the stretch image and every sky512_<face>.tex its
    channel-swapped copy; the face images are not looked at. *)
Theorem generateSkybox_stretch (self : SkyboxGenerator) (imgs : Images)
    (title : string) (img : Image) (folder_exists reply_yes : bool) :
  title <> ""%string ->
  radio_six self = false ->
  stretch_image imgs = Some img ->
  (folder_exists = true -> reply_yes = true) ->
  saves_of (generateSkybox self imgs title folder_exists reply_yes) =
  files_of [title] (map (fun face => (face, img)) FACE_NAMES).
Proof.
  intros Htitle Hmode Himg Hconfirm. unfold generateSkybox.
  destruct (String.eqb_spec title "") as [|_]; [contradiction|].
  assert (Hgo : folder_exists && negb reply_yes = false).
  { destruct folder_exists; [rewrite Hconfirm by reflexivity|]; reflexivity. }
  rewrite Hgo, Hmode, Himg.
  rewrite saves_of_app, opening_saves, saves_of_app.
  cbn [app saves_of]. rewrite app_nil_r. reflexivity.
Qed.

Lemma generateSkybox_stretch_witness :
  saves_of (generateSkybox stretch_window stretch_only "sky" false false) =
  files_of ["sky"%string] (map (fun face => (face, two_pixel_image)) FACE_NAMES).
Proof.
  apply (generateSkybox_stretch stretch_window stretch_only "sky" two_pixel_image false false).
  - discriminate.
  - reflexivity.
  - reflexivity.
  - discriminate.
Defined.

End ExportFiles.

(** ** The bulk import *)

Section BulkImport.

Lemma endswith_length s : forall suffix,
  endswith s suffix = true -> String.length suffix <= String.length s.
Proof.
  induction s as [|c s IH]; intros suffix H; cbn [endswith] in H.
  - destruct (String.eqb_spec "" suffix) as [E|E]; [|discriminate H].
    rewrite <- E. cbn. lia.
  - destruct (String.eqb_spec (String c s) suffix) as [E|E].
    + rewrite <- E. lia.
    + apply IH in H. cbn [String.length]. lia.
Qed.

Lemma endswith_same_length s : forall a b,
  endswith s a = true -> endswith s b = true ->
  String.length a = String.length b -> a = b.
Proof.
  induction s as [|c s IH]; intros a b Ha Hb Hlen; cbn [endswith] in Ha, Hb.
  - destruct (String.eqb_spec "" a) as [Ea|Ea]; [|discriminate Ha].
    destruct (String.eqb_spec "" b) as [Eb|Eb]; [congruence|discriminate Hb].
  - destruct (String.eqb_spec (String c s) a) as [Ea|Ea];
      destruct (String.eqb_spec (String c s) b) as [Eb|Eb].
    + congruence.
    + apply endswith_length in Hb. rewrite <- Ea in Hlen.
      cbn [String.length] in Hlen. lia.
    + apply endswith_length in Ha. rewrite <- Eb in Hlen.
      cbn [String.length] in Hlen. lia.
    + exact (IH a b Ha Hb Hlen).
Qed.

Lemma face_suffix_unique fname face1 face2 :
  In face1 FACE_NAMES -> In face2 FACE_NAMES ->
  endswith (lower fname) (String.append face1 ".png") = true ->
  endswith (lower fname) (String.append face2 ".png") = true ->
  face1 = face2.
Proof.
  intros H1 H2 E1 E2.
  assert (Heq : String.append face1 ".png" = String.append face2 ".png").
  { apply (endswith_same_length (lower fname)); [exact E1|exact E2|].
    cbn in H1, H2.
    repeat (destruct H1 as [<-|H1]; [|]); try contradiction;
      repeat (destruct H2 as [<-|H2]; [|]); try contradiction; reflexivity. }
  clear E1 E2. cbn in H1, H2.
  repeat (destruct H1 as [<-|H1]; [|]); try contradiction;
    repeat (destruct H2 as [<-|H2]; [|]); try contradiction;
    first [reflexivity | discriminate Heq].
Qed.

(** X28: a file name is given to a face exactly when that face's name
    followed by .png ends the lower-cased file name; no name fits two
    faces, so the order of [FACE_NAMES] and the [break] decide nothing.
    The test looks at the last six characters only. *)
Theorem face_for_file_spec (fname face : string) :
  face_for_file fname = Some face <->
  In face FACE_NAMES /\ endswith (lower fname) (String.append face ".png") = true.
Proof.
  unfold face_for_file. split.
  - intros H. apply find_some in H. exact H.
  - intros [Hin Hend].
    destruct (List.find _ FACE_NAMES) as [face'|] eqn:Hfind.
    + apply find_some in Hfind as [Hin' Hend']. f_equal.
      exact (face_suffix_unique fname face' face Hin' Hin Hend' Hend).
    + pose proof (find_none _ _ Hfind face Hin) as Hno. cbn beta in Hno.
      rewrite Hend in Hno. discriminate Hno.
Qed.

(** Some file names: upper case is accepted; only the end of the name
    counts, so left.png goes to the front face. *)
Lemma face_for_file_examples :
  face_for_file "sky512_rt.png" = Some "rt"%string /\
  face_for_file "LF.PNG" = Some "lf"%string /\
  face_for_file "left.png" = Some "ft"%string /\
  face_for_file "front.png" = None /\
  face_for_file "ft.jpg" = None.
Proof. repeat split. Qed.

Lemma import_entry_other st e face :
  face_for_file (fname e) <> Some face ->
  get (import_entry st e).1.2 face = get st.1.2 face /\
  face_images (import_entry st e).1.1 !! face = face_images st.1.1 !! face.
Proof.
  intros Hno. destruct st as [[imgs p] live]. unfold import_entry. cbn [fst snd].
  destruct (is_file e); [|split; reflexivity].
  destruct (face_for_file (fname e)) as [f|]; [|split; reflexivity].
  destruct (staged e) as [img|]; [|split; reflexivity].
  assert (Hne : f <> face) by congruence.
  cbn [fst snd face_images]. split.
  - rewrite loadTexture_eq. cbn zeta. cbn [fst snd].
    unfold get, set_textures. cbn [textures]. apply lookup_insert_ne, Hne.
  - apply lookup_insert_ne, Hne.
Qed.

Lemma import_entry_cache_ok st e :
  cache_ok st.1.2 st.2 -> cache_ok (import_entry st e).1.2 (import_entry st e).2.
Proof.
  destruct st as [[imgs p] live]. unfold import_entry. cbn [fst snd].
  intros Hok. destruct (is_file e); [|exact Hok].
  destruct (face_for_file (fname e)) as [f|]; [|exact Hok].
  destruct (staged e) as [img|]; [|exact Hok].
  cbn [fst snd]. apply loadTexture_cache_ok, Hok.
Qed.

(** X29: [bulkImportImages] keeps the cache consistent with the context,
    and a face that no listed name fits keeps its image and its texture. *)
Theorem bulkImportImages_other_faces (entries : list dir_entry)
    (st : Images * SkyboxPreview * gl_names) (face : string) :
  cache_ok st.1.2 st.2 ->
  Forall (fun e => face_for_file (fname e) <> Some face) entries ->
  cache_ok (bulkImportImages entries st).1.2 (bulkImportImages entries st).2 /\
  get (bulkImportImages entries st).1.2 face = get st.1.2 face /\
  face_images (bulkImportImages entries st).1.1 !! face = face_images st.1.1 !! face.
Proof.
  unfold bulkImportImages. revert st.
  induction entries as [|e entries IH]; intros st Hok Hall.
  - cbn [fold_left]. split; [exact Hok|split; reflexivity].
  - apply Forall_cons in Hall as [He Hall]. cbn [fold_left].
    destruct (IH (import_entry st e) (import_entry_cache_ok st e Hok) Hall)
      as (Hok' & Hget & Himg).
    destruct (import_entry_other st e face He) as [Hget1 Himg1].
    split; [exact Hok'|]. split; congruence.
Qed.

Lemma bulkImportImages_other_faces_witness :
  let st := (six_images, init_preview, (∅ : gl_names)) in
  let entries := [mkEntry "left.png" true (Some empty_image);
                  mkEntry "notes.txt" true None] in
  cache_ok (bulkImportImages entries st).1.2 (bulkImportImages entries st).2 /\
  get (bulkImportImages entries st).1.2 "lf" = get st.1.2 "lf" /\
  face_images (bulkImportImages entries st).1.1 !! "lf" = face_images st.1.1 !! "lf".
Proof.
  apply (bulkImportImages_other_faces
           [mkEntry "left.png" true (Some empty_image); mkEntry "notes.txt" true None]
           (six_images, init_preview, (∅ : gl_names)) "lf").
  - exact cache_ok_init.
  - repeat (apply List.Forall_cons; [vm_compute; discriminate|]). apply List.Forall_nil.
Defined.

End BulkImport.
